(** * Timor-Leste healthcare access: coverage model, instance generator, report

    A shallow embedding of [solve.py], [inefficient_model.py] and [run.py].
    The MILP engine (gurobipy), Python's [random] module and numpy are
    libraries the program calls; they are represented by the narrow
    interface the program uses.  Python dictionaries are finite maps,
    a [KeyError] is an explicit error result. *)

From stdpp Require Import gmap strings list numbers pretty.

Open Scope Z_scope.

(** ** Python exceptions as results *)

Inductive exn :=
| KeyError (k : string)
| KeyError2 (k1 k2 : string)
| IndexError (i : nat)
| ValueError
| AttributeError (attr : string)
| TypeError (keyword : string).

Inductive result (A : Type) :=
| Ok (a : A)
| Raise (e : exn).
Arguments Ok {A} a.
Arguments Raise {A} e.

#[global] Instance result_ret : MRet result := @Ok.
#[global] Instance result_bind : MBind result := λ A B f r,
  match r with Ok a => f a | Raise e => Raise e end.
#[global] Instance result_fmap : FMap result := λ A B f r,
  match r with Ok a => Ok (f a) | Raise e => Raise e end.

Definition raises {A} (r : result A) : Prop :=
  match r with Ok _ => False | Raise _ => True end.

(** [d[k]] on a dictionary with string keys. *)
Definition getitem {V} (d : gmap string V) (k : string) : result V :=
  match d !! k with Some v => Ok v | None => Raise (KeyError k) end.

(** [d[i, j]] on a dictionary keyed by pairs. *)
Definition getitem2 {V} (d : gmap (string * string) V) (i j : string) : result V :=
  match d !! (i, j) with Some v => Ok v | None => Raise (KeyError2 i j) end.

(** [for a in l: s = body(a, s)], aborting at the first exception. *)
Fixpoint for_each {A S} (l : list A) (body : A → S → result S) (s : S) : result S :=
  match l with
  | [] => Ok s
  | a :: l' => s' ← body a s; for_each l' body s'
  end.

(** A generator expression [(e for a in l)] whose element may raise and
    may contribute several items (nested [for] clauses). *)
Fixpoint collect {A B} (l : list A) (gen : A → result (list B)) : result (list B) :=
  match l with
  | [] => Ok []
  | a :: l' => bs ← gen a; rest ← collect l' gen; Ok (bs ++ rest)
  end.

(** ** The MILP engine interface *)

Module gp.

(** A variable is its index in the model, in creation order. *)
Abbreviation Var := nat (only parsing).

Inductive vtype := BINARY | INTEGER | CONTINUOUS.
Inductive sense := LESS_EQUAL | EQUAL | GREATER_EQUAL.
Inductive direction := MAXIMIZE | MINIMIZE.

(** A linear expression: coefficient-variable terms plus a constant. *)
Record LinExpr := { terms : list (Z * Var); constant : Z }.

Record Constr := {
  c_name : string;
  c_lhs : LinExpr;
  c_sense : sense;
  c_rhs : LinExpr;
  c_lazy : bool
}.

Record Model := {
  ModelName : string;
  vars : list (vtype * string);
  objective : LinExpr;
  ModelSense : direction;
  constrs : list Constr
}.

Definition new (name : string) : Model :=
  {| ModelName := name; vars := []; objective := {| terms := []; constant := 0 |};
     ModelSense := MINIMIZE; constrs := [] |}.

(** [model.addVar(vtype=.., name=..)]: the new variable is the next index. *)
Definition addVar (vt : vtype) (name : string) (m : Model) : Var * Model :=
  (length (vars m),
   {| ModelName := ModelName m; vars := vars m ++ [(vt, name)];
      objective := objective m; ModelSense := ModelSense m; constrs := constrs m |}).

Definition setObjective (e : LinExpr) (d : direction) (m : Model) : Model :=
  {| ModelName := ModelName m; vars := vars m;
     objective := e; ModelSense := d; constrs := constrs m |}.

Definition addConstr (c : Constr) (m : Model) : Model :=
  {| ModelName := ModelName m; vars := vars m;
     objective := objective m; ModelSense := ModelSense m; constrs := constrs m ++ [c] |}.

(** [model.addConstr(c, name=.., lazy=1)]: [addConstr] takes a constraint and
    a name; the keyword [lazy] is unexpected, a [TypeError] that is raised
    before the model is changed. *)
Definition addConstr_lazy (c : Constr) (m : Model) : result Model :=
  Raise (TypeError "lazy").

Definition addConstrs (cs : list Constr) (m : Model) : Model :=
  {| ModelName := ModelName m; vars := vars m;
     objective := objective m; ModelSense := ModelSense m; constrs := constrs m ++ cs |}.

(** Expression builders: a variable, an integer, [k * v], [quicksum]. *)
Definition of_var (v : Var) : LinExpr := {| terms := [(1, v)]; constant := 0 |}.
Definition of_int (k : Z) : LinExpr := {| terms := []; constant := k |}.
Definition scale (k : Z) (v : Var) : LinExpr := {| terms := [(k, v)]; constant := 0 |}.
Definition quicksum (ts : list (Z * Var)) : LinExpr := {| terms := ts; constant := 0 |}.

(** Semantics: the value of an expression and the truth of a constraint
    under an assignment of integers to variables. *)
Definition eval (val : Var → Z) (e : LinExpr) : Z :=
  foldr (λ t acc, t.1 * val t.2 + acc) (constant e) (terms e).

Definition holds (val : Var → Z) (c : Constr) : bool :=
  match c_sense c with
  | LESS_EQUAL => eval val (c_lhs c) <=? eval val (c_rhs c)
  | EQUAL => eval val (c_lhs c) =? eval val (c_rhs c)
  | GREATER_EQUAL => eval val (c_rhs c) <=? eval val (c_lhs c)
  end.

Definition in_domain (vt : vtype) (z : Z) : bool :=
  match vt with
  | BINARY => (z =? 0) || (z =? 1)
  | INTEGER | CONTINUOUS => true
  end.

Definition domains_ok (m : Model) (val : Var → Z) : bool :=
  forallb (λ iv, in_domain (iv.2).1 (val iv.1)) (imap pair (vars m)).

(** A feasible point respects every variable domain and every constraint;
    a lazy constraint is enforced on every accepted solution as well. *)
Definition feasible (m : Model) (val : Var → Z) : bool :=
  domains_ok m val && forallb (holds val) (constrs m).

Definition ObjVal (m : Model) (val : Var → Z) : Z := eval val (objective m).

(** [val] attains the optimum of a maximisation model. *)
Definition optimal (m : Model) (val : Var → Z) : Prop :=
  feasible m val = true ∧ ∀ w, feasible m w = true → ObjVal m w ≤ ObjVal m val.

End gp.

(** ** The problem instance (the [data] dictionary) *)

Record Data (F : Type) := {
  households : list string;
  existing_hospitals : list string;
  candidate_hospitals : list string;
  all_hospitals : list string;
  population : gmap string Z;
  travel_distances : gmap string (gmap string F);
  distance_indicators : gmap string (gmap string Z);
  max_travel_distance : F;
  max_new_hospitals : Z
}.
Arguments households {F} _.
Arguments existing_hospitals {F} _.
Arguments candidate_hospitals {F} _.
Arguments all_hospitals {F} _.
Arguments population {F} _.
Arguments travel_distances {F} _.
Arguments distance_indicators {F} _.
Arguments max_travel_distance {F} _.
Arguments max_new_hospitals {F} _.

(** ** The formulation builders *)

(** [x = {}; for j in all_hospitals: x[j] = model.addVar(BINARY, f"x_{j}")] *)
Definition add_open_vars (sites : list string) (st : gp.Model * gmap string gp.Var)
    : gp.Model * gmap string gp.Var :=
  foldl (λ '(model, x) j,
           let '(v, model') := gp.addVar gp.BINARY ("x_" +:+ j) model in
           (model', <[j := v]> x)) st sites.

(** [y = {}; for i in households: for j in all_hospitals: y[i, j] = model.addVar(...)] *)
Definition add_assign_vars (hs sites : list string)
    (st : gp.Model * gmap (string * string) gp.Var)
    : gp.Model * gmap (string * string) gp.Var :=
  foldl (λ st i,
     foldl (λ '(model, y) j,
              let '(v, model') := gp.addVar gp.BINARY ("y_" +:+ i +:+ "_" +:+ j) model in
              (model', <[(i, j) := v]> y)) st sites) st hs.

(** The constraints the builders hand to [model.addConstr]. *)
Definition c_existing (j : string) (xj : gp.Var) : gp.Constr :=
  {| gp.c_name := "existing_hospital_" +:+ j;
     gp.c_lhs := gp.of_var xj; gp.c_sense := gp.EQUAL;
     gp.c_rhs := gp.of_int 1; gp.c_lazy := false |}.

Definition c_budget (ts : list (Z * gp.Var)) (p : Z) : gp.Constr :=
  {| gp.c_name := "max_new_hospitals";
     gp.c_lhs := gp.quicksum ts; gp.c_sense := gp.LESS_EQUAL;
     gp.c_rhs := gp.of_int p; gp.c_lazy := false |}.

Definition c_linking (j : string) (ts : list (Z * gp.Var)) (n : nat) (xj : gp.Var)
    : gp.Constr :=
  {| gp.c_name := "facility_open_" +:+ j;
     gp.c_lhs := gp.quicksum ts; gp.c_sense := gp.LESS_EQUAL;
     gp.c_rhs := gp.scale (Z.of_nat n) xj; gp.c_lazy := false |}.

Definition c_single (i : string) (ts : list (Z * gp.Var)) : gp.Constr :=
  {| gp.c_name := "single_assignment_" +:+ i;
     gp.c_lhs := gp.quicksum ts; gp.c_sense := gp.LESS_EQUAL;
     gp.c_rhs := gp.of_int 1; gp.c_lazy := false |}.

Definition c_distance (i j : string) (yij : gp.Var) (d : Z) : gp.Constr :=
  {| gp.c_name := "distance_limit_" +:+ i +:+ "_" +:+ j;
     gp.c_lhs := gp.of_var yij; gp.c_sense := gp.LESS_EQUAL;
     gp.c_rhs := gp.of_int d; gp.c_lazy := false |}.

(** [quicksum(population[i] * y[i, j] for i in households for j in all_hospitals)] *)
Definition coverage_objective (hs sites : list string) (pop : gmap string Z)
    (y : gmap (string * string) gp.Var) : result gp.LinExpr :=
  ts ← collect hs (λ i, collect sites (λ j,
         p ← getitem pop i; v ← getitem2 y i j; Ok [(p, v)]));
  Ok (gp.quicksum ts).

(** Constraint 1: [for j in existing_hospitals: model.addConstr(x[j] == 1, ...)] *)
Definition constr_existing (existing : list string) (x : gmap string gp.Var)
    : gp.Model → result gp.Model :=
  for_each existing (λ j model,
    xj ← getitem x j;
    Ok (gp.addConstr (c_existing j xj) model)).

(** Constraint 2: [quicksum(x[j] for j in candidate_hospitals) <= max_new_hospitals] *)
Definition constr_budget (candidates : list string) (p : Z) (x : gmap string gp.Var)
    (model : gp.Model) : result gp.Model :=
  ts ← collect candidates (λ j, xj ← getitem x j; Ok [(1, xj)]);
  Ok (gp.addConstr (c_budget ts p) model).

(** Constraint 3:
    [quicksum(y[i, j] for i in households) <= len(households) * x[j]] per site. *)
Definition constr_linking (hs sites : list string) (x : gmap string gp.Var)
    (y : gmap (string * string) gp.Var) : gp.Model → result gp.Model :=
  for_each sites (λ j model,
    ts ← collect hs (λ i, yij ← getitem2 y i j; Ok [(1, yij)]);
    xj ← getitem x j;
    Ok (gp.addConstr (c_linking j ts (length hs) xj) model)).

(** Constraint 4: [quicksum(y[i, j] for j in all_hospitals) <= 1] per household. *)
Definition constr_single (hs sites : list string) (y : gmap (string * string) gp.Var)
    : gp.Model → result gp.Model :=
  for_each hs (λ i model,
    ts ← collect sites (λ j, yij ← getitem2 y i j; Ok [(1, yij)]);
    Ok (gp.addConstr (c_single i ts) model)).

(** Constraint 5, dense: [y[i, j] <= distance_indicators[i][j]] for every pair. *)
Definition constr_distance_dense (hs sites : list string)
    (ind : gmap string (gmap string Z)) (y : gmap (string * string) gp.Var)
    : gp.Model → result gp.Model :=
  for_each hs (λ i,
    for_each sites (λ j model,
      yij ← getitem2 y i j;
      row ← getitem ind i;
      d ← getitem row j;
      Ok (gp.addConstr (c_distance i j yij d) model))).

(** Constraint 5, sparse and lazy:
    [if distance_indicators[i][j] == 0: model.addConstr(y[i, j] <= 0, ..., lazy=1)].
    The call is made with the keyword [lazy], so it raises at the first
    visited pair whose indicator is 0. *)
Definition constr_distance_lazy (hs sites : list string)
    (ind : gmap string (gmap string Z)) (y : gmap (string * string) gp.Var)
    : gp.Model → result gp.Model :=
  for_each hs (λ i,
    for_each sites (λ j model,
      row ← getitem ind i;
      d ← getitem row j;
      if d =? 0 then
        yij ← getitem2 y i j;
        gp.addConstr_lazy (c_distance i j yij 0) model
      else Ok model)).

(** The variable dictionaries [x] and [y] the builders create; the indices do
    not depend on the model name. *)
Definition open_vars {F} (data : Data F) : gmap string gp.Var :=
  (add_open_vars (all_hospitals data) (gp.new "", ∅)).2.

Definition assign_vars {F} (data : Data F) : gmap (string * string) gp.Var :=
  (add_assign_vars (households data) (all_hospitals data)
     ((add_open_vars (all_hospitals data) (gp.new "", ∅)).1, ∅)).2.

(** Everything the two builders share: variables, objective, constraints 1-4. *)
Definition build_common {F} (name : string) (data : Data F)
    : result (gp.Model * gmap (string * string) gp.Var) :=
  let households := households data in
  let existing_hospitals := existing_hospitals data in
  let candidate_hospitals := candidate_hospitals data in
  let all_hospitals := all_hospitals data in
  let population := population data in
  let max_new_hospitals := max_new_hospitals data in
  let model := gp.new name in
  let '(model, x) := add_open_vars all_hospitals (model, ∅) in
  let '(model, y) := add_assign_vars households all_hospitals (model, ∅) in
  objective ← coverage_objective households all_hospitals population y;
  let model := gp.setObjective objective gp.MAXIMIZE model in
  model ← constr_existing existing_hospitals x model;
  model ← constr_budget candidate_hospitals max_new_hospitals x model;
  model ← constr_linking households all_hospitals x y model;
  model ← constr_single households all_hospitals y model;
  Ok (model, y).

(** [inefficient_model.generate_gurobipy_model]: the dense formulation. *)
Definition generate_gurobipy_model {F} (data : Data F) : result gp.Model :=
  '(model, y) ← build_common "TimorLeste_Inefficient" data;
  constr_distance_dense (households data) (all_hospitals data)
    (distance_indicators data) y model.

(** [solve.build_model]: the sparse formulation with lazy distance limits.
    Its last loop asks for a lazy constraint through a keyword [addConstr]
    does not have, so the function returns only when no visited pair has
    indicator 0. *)
Definition build_model {F} (data : Data F) : result gp.Model :=
  '(model, y) ← build_common "TimorLeste_Healthcare" data;
  constr_distance_lazy (households data) (all_hospitals data)
    (distance_indicators data) y model.

(** The variable dictionaries as the allocation loop leaves them: the key at
    position [k] of the list gets index [n + k], a repeated key keeps the last. *)
Fixpoint alloc_map {K} `{Countable K} (keys : list K) (n : nat) (d : gmap K gp.Var)
    : gmap K gp.Var :=
  match keys with
  | [] => d
  | k :: ks => alloc_map ks (S n) (<[k := n]> d)
  end.

Definition add_vars (l : list (gp.vtype * string)) (m : gp.Model) : gp.Model :=
  {| gp.ModelName := gp.ModelName m; gp.vars := gp.vars m ++ l;
     gp.objective := gp.objective m; gp.ModelSense := gp.ModelSense m;
     gp.constrs := gp.constrs m |}.

Definition x_name (j : string) : string := "x_" +:+ j.
Definition y_name (k : string * string) : string := "y_" +:+ k.1 +:+ "_" +:+ k.2.
Definition binary_named {K} (name : K → string) (keys : list K) : list (gp.vtype * string) :=
  (λ k, (gp.BINARY, name k)) <$> keys.

(** All household-site pairs in loop order. *)
Definition pairs (hs sites : list string) : list (string * string) :=
  i ← hs; pair i <$> sites.

(** The five constraint families, as lists in emission order. *)
Definition family_existing {F} (data : Data F) : result (list gp.Constr) :=
  collect (existing_hospitals data) (λ j,
    xj ← getitem (open_vars data) j; Ok [c_existing j xj]).

Definition family_budget {F} (data : Data F) : result (list gp.Constr) :=
  ts ← collect (candidate_hospitals data) (λ j,
         xj ← getitem (open_vars data) j; Ok [(1, xj)]);
  Ok [c_budget ts (max_new_hospitals data)].

Definition family_linking {F} (data : Data F) : result (list gp.Constr) :=
  collect (all_hospitals data) (λ j,
    ts ← collect (households data) (λ i,
           yij ← getitem2 (assign_vars data) i j; Ok [(1, yij)]);
    xj ← getitem (open_vars data) j;
    Ok [c_linking j ts (length (households data)) xj]).

Definition family_single {F} (data : Data F) : result (list gp.Constr) :=
  collect (households data) (λ i,
    ts ← collect (all_hospitals data) (λ j,
           yij ← getitem2 (assign_vars data) i j; Ok [(1, yij)]);
    Ok [c_single i ts]).

Definition family_distance_dense {F} (data : Data F) : result (list gp.Constr) :=
  collect (households data) (λ i, collect (all_hospitals data) (λ j,
    yij ← getitem2 (assign_vars data) i j;
    row ← getitem (distance_indicators data) i;
    d ← getitem row j;
    Ok [c_distance i j yij d])).

Definition family_distance_lazy {F} (data : Data F) : result (list gp.Constr) :=
  collect (households data) (λ i, collect (all_hospitals data) (λ j,
    row ← getitem (distance_indicators data) i;
    d ← getitem row j;
    if d =? 0 then yij ← getitem2 (assign_vars data) i j; Raise (TypeError "lazy")
    else Ok [])).

(** The model a builder returns, written out: the declared variables, the
    objective and the families in order, the last one depending on the mode. *)
Definition formulation {F} (name : string) (data : Data F)
    (family_distance : result (list gp.Constr)) : result gp.Model :=
  obj ← coverage_objective (households data) (all_hospitals data) (population data)
           (assign_vars data);
  c1 ← family_existing data;
  c2 ← family_budget data;
  c3 ← family_linking data;
  c4 ← family_single data;
  c5 ← family_distance;
  Ok {| gp.ModelName := name;
        gp.vars := binary_named x_name (all_hospitals data)
                   ++ binary_named y_name (pairs (households data) (all_hospitals data));
        gp.objective := obj;
        gp.ModelSense := gp.MAXIMIZE;
        gp.constrs := c1 ++ c2 ++ c3 ++ c4 ++ c5 |}.

(** The same instance with other stored distances and another distance limit. *)
Definition example_data_far : Data Z := {|
  households := ["H1"; "H2"];
  existing_hospitals := ["EJ1"];
  candidate_hospitals := ["CJ1"];
  all_hospitals := ["EJ1"; "CJ1"];
  population := {[ "H1" := 100; "H2" := 200 ]};
  travel_distances :=
    {[ "H1" := {[ "EJ1" := 3; "CJ1" := 70 ]}; "H2" := {[ "EJ1" := 55; "CJ1" := 4 ]} ]};
  distance_indicators :=
    {[ "H1" := {[ "EJ1" := 1; "CJ1" := 0 ]}; "H2" := {[ "EJ1" := 0; "CJ1" := 1 ]} ]};
  max_travel_distance := 12;
  max_new_hospitals := 1
|}.







(** The data-model invariant on feasibility indicators: every listed pair
    that has an indicator has 0 or 1. *)
Definition indicators_binary {F} (data : Data F) : bool :=
  forallb (λ i, forallb (λ j,
    match distance_indicators data !! i with
    | Some row => match row !! j with
                  | Some d => (d =? 0) || (d =? 1)
                  | None => true
                  end
    | None => true
    end) (all_hospitals data)) (households data).

(** The linking constraint of site [j]: one unit term per entry of the
    household list, bounded by [len(households) * x[j]]. *)
Definition is_linking {F} (data : Data F) (j : string) (c : gp.Constr) : Prop :=
  ∃ ts xj,
    open_vars data !! j = Some xj
    ∧ Forall2 (λ i t, ∃ yij, assign_vars data !! (i, j) = Some yij ∧ t = (1, yij))
        (households data) ts
    ∧ c = c_linking j ts (length (households data)) xj.

Definition is_single {F} (data : Data F) (i : string) (c : gp.Constr) : Prop :=
  ∃ ts,
    Forall2 (λ j t, ∃ yij, assign_vars data !! (i, j) = Some yij ∧ t = (1, yij))
        (all_hospitals data) ts
    ∧ c = c_single i ts.

(** The empty assignment: existing sites open, everything else 0. *)
Definition empty_assignment {F} (data : Data F) : nat → Z :=
  λ idx, if existsb (λ j, bool_decide (open_vars data !! j = Some idx))
              (existing_hospitals data)
         then 1 else 0.

Definition example_data : Data Z := {|
  households := ["H1"; "H2"];
  existing_hospitals := ["EJ1"];
  candidate_hospitals := ["CJ1"];
  all_hospitals := ["EJ1"; "CJ1"];
  population := {[ "H1" := 100; "H2" := 200 ]};
  travel_distances := ∅;
  distance_indicators :=
    {[ "H1" := {[ "EJ1" := 1; "CJ1" := 0 ]}; "H2" := {[ "EJ1" := 0; "CJ1" := 1 ]} ]};
  max_travel_distance := 10;
  max_new_hospitals := 1
|}.

(** An instance in which every site is within reach of every household. *)
Definition example_data_near : Data Z := {|
  households := ["H1"; "H2"];
  existing_hospitals := ["EJ1"];
  candidate_hospitals := ["CJ1"];
  all_hospitals := ["EJ1"; "CJ1"];
  population := {[ "H1" := 100; "H2" := 200 ]};
  travel_distances := ∅;
  distance_indicators :=
    {[ "H1" := {[ "EJ1" := 1; "CJ1" := 1 ]}; "H2" := {[ "EJ1" := 1; "CJ1" := 1 ]} ]};
  max_travel_distance := 10;
  max_new_hospitals := 1
|}.


(** ** The libraries the generator calls

    Floating-point arithmetic and the two pseudo-random generators
    ([random] and [numpy.random]) are used through this interface.  A
    generator state is a value; a draw returns the value drawn and the next
    state; seeding replaces the state by one determined by the seed. *)

Class Lib := {
  float : Type;
  of_int : Z → float;
  fadd : float → float → float;
  fsub : float → float → float;
  fle : float → float → bool;
  (** [round(x, 2)] *)
  round2 : float → float;
  (** [numpy.linalg.norm] of a vector of two components *)
  norm : float * float → float;
  py_state : Type;
  np_state : Type;
  (** the state [random.seed(seed)] installs *)
  random_seed : Z → py_state;
  (** [random.uniform(a, b)] *)
  random_uniform : float → float → py_state → float * py_state;
  (** [random.randint(a, b)] *)
  random_randint : Z → Z → py_state → Z * py_state;
  (** the state [np.random.seed(seed)] installs *)
  np_random_seed : Z → np_state;
  (** [np.random.uniform(low, high)] *)
  np_random_uniform : float → float → np_state → float * np_state;
  (** [np.random.randint(low, high)] *)
  np_random_randint : Z → Z → np_state → Z * np_state
}.

(** The process-wide generator states. *)
Record World `{Lib} := { py_rng : py_state; np_rng : np_state }.

Section Generator.
Context `{Lib}.

(** [np.random.uniform(low, high, size=(n, 2))]: the rows are filled in
    order from successive draws. *)
Fixpoint np_random_uniform_rows (low high : float) (n : nat) (s : np_state)
    : list (float * float) * np_state :=
  match n with
  | O => ([], s)
  | S n' =>
      let '(a, s) := np_random_uniform low high s in
      let '(b, s) := np_random_uniform low high s in
      let '(rows, s) := np_random_uniform_rows low high n' s in
      ((a, b) :: rows, s)
  end.

(** [a[i]] on an array. *)
Definition index {A} (a : list A) (i : nat) : result A :=
  match a !! i with Some v => Ok v | None => Raise (IndexError i) end.

(** [enumerate(l)] *)
Definition enumerate {A} (l : list A) : list (nat * A) := imap pair l.

(** [[f"{prefix}{i+1}" for i in range(n)]] *)
Definition ids (prefix : string) (n : nat) : list string :=
  (λ i : nat, prefix +:+ pretty (Z.of_nat i + 1)) <$> seq 0 n.

Definition vsub (a b : float * float) : float * float :=
  (fsub a.1 b.1, fsub a.2 b.2).

(** [{h: int(np.random.randint(50, 500)) for h in households}] *)
Definition draw_population (households : list string) (s : np_state)
    : result (gmap string Z * np_state) :=
  for_each households (λ h '(population, s),
    let '(r, s) := np_random_randint 50 500 s in
    Ok (<[h := r]> population, s)) (∅, s).

(** The loop that fills [travel_distances]. *)
Definition compute_distances (households all_hospitals : list string)
    (household_coords hospital_coords : list (float * float)) (s : np_state)
    : result (gmap string (gmap string float) * np_state) :=
  for_each (enumerate households) (λ '(i, h) '(travel_distances, s),
    let travel_distances := <[h := ∅]> travel_distances in
    for_each (enumerate all_hospitals) (λ '(j, hosp) '(travel_distances, s),
      hc ← index household_coords i;
      sc ← index hospital_coords j;
      let dist := norm (vsub hc sc) in
      let '(u, s) := np_random_uniform (of_int (-10)) (of_int 10) s in
      row ← getitem travel_distances h;
      Ok (<[h := <[hosp := round2 (fadd dist u)]> row]> travel_distances, s))
      (travel_distances, s)) (∅, s).

(** The loop that fills [distance_indicators]:
    [int(travel_distances[h][hosp] <= S)]. *)
Definition derive_indicators (households all_hospitals : list string)
    (travel_distances : gmap string (gmap string float)) (S : float)
    : result (gmap string (gmap string Z)) :=
  for_each households (λ h distance_indicators,
    let distance_indicators := <[h := ∅]> distance_indicators in
    for_each all_hospitals (λ hosp distance_indicators,
      drow ← getitem travel_distances h;
      d ← getitem drow hosp;
      row ← getitem distance_indicators h;
      Ok (<[h := <[hosp := if fle d S then 1 else 0]> row]> distance_indicators))
      distance_indicators) ∅.

(** [generate_data(seed)], with the three size constants of its body
    ([n], [m], [num_new_sites]) as parameters. *)
Definition generate_data_sized (n m num_new_sites : nat) (seed : Z) (w : World)
    : result (Data float * World) :=
  (* random.seed(seed); np.random.seed(seed) *)
  let w := {| py_rng := random_seed seed; np_rng := np_rng w |} in
  let w := {| py_rng := py_rng w; np_rng := np_random_seed seed |} in
  let '(u, py) := random_uniform (of_int 8) (of_int 15) (py_rng w) in
  let S := round2 u in
  let '(r, py) := random_randint 5 (Z.of_nat num_new_sites) py in
  let p := Z.min r (Z.of_nat num_new_sites) in
  let households := ids "H" n in
  let existing_hospitals := ids "EJ" m in
  let candidate_hospitals := ids "CJ" num_new_sites in
  let all_hospitals := existing_hospitals ++ candidate_hospitals in
  let '(household_coords, np) :=
    np_random_uniform_rows (of_int 0) (of_int 100) n (np_rng w) in
  let '(hospital_coords, np) :=
    np_random_uniform_rows (of_int 0) (of_int 100) (m + num_new_sites) np in
  '(population, np) ← draw_population households np;
  '(travel_distances, np) ←
    compute_distances households all_hospitals household_coords hospital_coords np;
  distance_indicators ← derive_indicators households all_hospitals travel_distances S;
  Ok ({| households := households;
         existing_hospitals := existing_hospitals;
         candidate_hospitals := candidate_hospitals;
         all_hospitals := all_hospitals;
         population := population;
         travel_distances := travel_distances;
         distance_indicators := distance_indicators;
         max_travel_distance := S;
         max_new_hospitals := p |},
      {| py_rng := py; np_rng := np |}).

(** [generate_data(seed)] as written: 20,000 households, 15 existing
    hospitals, 100 candidate sites. *)
Definition generate_data (seed : Z) : World → result (Data float * World) :=
  generate_data_sized (Z.to_nat 20000) 15 100 seed.

End Generator.

(** What the generator stores, read off its body: a position is a pair of
    draws from [uniform(0, 100)], a noise term a draw from
    [uniform(-10, 10)], a stored distance the rounded sum of the norm of a
    position difference and a noise term. *)
Definition is_position `{Lib} (c : float * float) : Prop :=
  ∃ s1 s2, c = ((np_random_uniform (of_int 0) (of_int 100) s1).1,
                (np_random_uniform (of_int 0) (of_int 100) s2).1).

Definition is_noise `{Lib} (u : float) : Prop :=
  ∃ s, u = (np_random_uniform (of_int (-10)) (of_int 10) s).1.

Definition stored_form `{Lib} (v : float) : Prop :=
  ∃ hc sc u, is_position hc ∧ is_position sc ∧ is_noise u
             ∧ v = round2 (fadd (norm (vsub hc sc)) u).

(** Every listed pair has an entry in a nested table. *)
Definition rows_complete {V} (hs sites : list string)
    (table : gmap string (gmap string V)) : Prop :=
  ∀ h s, h ∈ hs → s ∈ sites → ∃ row v, table !! h = Some row ∧ row !! s = Some v.

(** Every value of a distance table has the stored form; every value of an
    indicator table is 0 or 1. *)
Definition all_stored `{Lib} (td : gmap string (gmap string float)) : Prop :=
  ∀ h row st v, td !! h = Some row → row !! st = Some v → stored_form v.

Definition all_flags (ind : gmap string (gmap string Z)) : Prop :=
  ∀ h row st v, ind !! h = Some row → row !! st = Some v → v = 0 ∨ v = 1.

(** ** The solve report ([main], from [start_time = time.time()] on)

    The text is the same in [solve.py] and [run.py].  The engine's search is
    external: what [main] reads back are the attributes of the solved model.
    Python's float formatting and the clock are parameters. *)

Record Formats (T : Type) := {
  (** [f"{x:,.0f}"] *)
  fmt_grouped_0f : T → string;
  (** [f"{x:.2f}"] *)
  fmt_2f : T → string;
  (** [f"{int(x):,}"] *)
  fmt_int_grouped : T → string;
  (** [t1 - t0] on clock readings *)
  elapsed : T → T → T
}.
Arguments fmt_grouped_0f {T} _ _.
Arguments fmt_2f {T} _ _.
Arguments fmt_int_grouped {T} _ _.
Arguments elapsed {T} _ _ _.

(** The attributes of a model after [model.optimize()]; [ObjVal] raises when
    the engine holds no solution. *)
Record Solved (T : Type) := {
  Status : Z;
  ObjVal : result T;
  NodeCount : T
}.
Arguments Status {T} _.
Arguments ObjVal {T} _.
Arguments NodeCount {T} _.

(** [s * n] on strings *)
Fixpoint str_mul (s : string) (n : nat) : string :=
  match n with O => "" | S n' => s +:+ str_mul s n' end.

(** The lines [main] prints once the engine has returned at [end_time]. *)
Definition main_report {T} (fmt : Formats T) (model : Solved T)
    (start_time end_time : T) : result (list string) :=
  let solve_time := elapsed fmt end_time start_time in
  let head := [str_mul "-" 60; ""; "RESULTS"; str_mul "=" 60] in
  if Status model =? 2 then
    obj ← ObjVal model;
    Ok (head ++ ["Status: Optimal";
                 "Objective: " +:+ fmt_grouped_0f fmt obj +:+ " (people covered)";
                 "Solve time: " +:+ fmt_2f fmt solve_time +:+ " seconds";
                 "Nodes explored: " +:+ fmt_int_grouped fmt (NodeCount model);
                 ""])
  else
    Ok (head ++ ["Status: " +:+ pretty (Status model);
                 "Solve time: " +:+ fmt_2f fmt solve_time +:+ " seconds";
                 ""]).

(** The status line is the fifth line printed. *)
Definition status_line (lines : list string) : option string := lines !! 4%nat.

(** Modelled from the spec: the four-way Solve Result taxonomy of section 4.3
    (optimal, time/gap-limited feasible, infeasible, other/error). *)
Inductive SolveStatus := Optimal | LimitedFeasible | Infeasible | OtherError.

(** Modelled from the spec: the report translates the engine status into the
    taxonomy, so the status line is a function of the taxonomy value alone. *)
Definition reports_taxonomy {T} (fmt : Formats T) : Prop :=
  ∃ (classify : Z → SolveStatus) (render : SolveStatus → string),
    ∀ model t0 t1 lines,
      main_report fmt model t0 t1 = Ok lines →
      status_line lines = Some (render (classify (Status model))).

(** Integer clock and plain decimal formatting, to run the report. *)
Definition plain_formats : Formats Z := {|
  fmt_grouped_0f := pretty;
  fmt_2f := pretty;
  fmt_int_grouped := pretty;
  elapsed := Z.sub
|}.

(** A solved model with engine status [st] and no solution. *)
Definition no_solution (st : Z) : Solved Z :=
  {| Status := st; ObjVal := Raise (AttributeError "ObjVal"); NodeCount := 0 |}.

(** ** Two small libraries to run the generator on

    Numbers are fixed-point, in hundredths; [norm] is the integer square
    root; a draw maps the next raw value of the generator into the range. *)

Definition fixed_point_lib (next : Z → Z) : Lib := {|
  float := Z;
  of_int := λ k, 100 * k;
  fadd := Z.add;
  fsub := Z.sub;
  fle := Z.leb;
  round2 := λ x, x;
  norm := λ v, Z.sqrt (v.1 * v.1 + v.2 * v.2);
  py_state := Z;
  np_state := Z;
  random_seed := λ seed, seed;
  random_uniform := λ a b s, (a + next s `mod` (b - a), next s);
  random_randint := λ a b s, (a + next s `mod` (b - a + 1), next s);
  np_random_seed := λ seed, seed;
  np_random_uniform := λ a b s, (a + next s `mod` (b - a), next s);
  np_random_randint := λ a b s, (a + next s `mod` (b - a), next s)
|}.

(** A linear congruential generator. *)
Definition lcg_lib : Lib :=
  fixed_point_lib (λ s, (1103515245 * s + 12345) `mod` 2147483648).

(** A generator whose raw value is always 0: every draw is the low end of
    its range. *)
Definition low_lib : Lib := fixed_point_lib (λ _, 0).

(** Generator states left behind by earlier use. *)
Definition lcg_world : @World lcg_lib := @Build_World lcg_lib 7 11.
Definition lcg_world' : @World lcg_lib := @Build_World lcg_lib 2024 99.
Definition low_world : @World low_lib := @Build_World low_lib 0 0.

(** ** Model statistics, as [main] prints them *)

(** [model.NumVars], [model.NumBinVars], [model.NumConstrs] *)
Definition NumVars (m : gp.Model) : nat := length (gp.vars m).
Definition NumBinVars (m : gp.Model) : nat :=
  sum_list_with (λ v : gp.vtype * string,
    match v.1 with gp.BINARY => 1%nat | _ => 0%nat end) (gp.vars m).
Definition NumConstrs (m : gp.Model) : nat := length (gp.constrs m).
Definition NumLazy (m : gp.Model) : nat :=
  sum_list_with (λ c, if gp.c_lazy c then 1%nat else 0%nat) (gp.constrs m).

(** The listed pairs (with repetitions, as the loops visit them) whose
    indicator is 0. *)
Definition zero_pairs {F} (data : Data F) : nat :=
  sum_list_with (λ i,
    sum_list_with (λ j,
      match distance_indicators data !! i with
      | Some row => match row !! j with
                    | Some d => if d =? 0 then 1%nat else 0%nat
                    | None => 0%nat
                    end
      | None => 0%nat
      end) (all_hospitals data)) (households data).

(** The instances on which a builder raises: an existing or candidate site
    that is not in the combined list, or a visited pair whose household has
    no population, no indicator row, or no indicator for the site. *)
Definition inconsistent {F} (data : Data F) : Prop :=
  (∃ j, j ∈ existing_hospitals data ∧ j ∉ all_hospitals data)
  ∨ (∃ j, j ∈ candidate_hospitals data ∧ j ∉ all_hospitals data)
  ∨ (∃ i j, i ∈ households data ∧ j ∈ all_hospitals data
            ∧ (population data !! i = None
               ∨ distance_indicators data !! i = None
               ∨ ∃ row, distance_indicators data !! i = Some row ∧ row !! j = None)).

(** ** Quantities a solution is measured by *)

(** The people living in the listed households: a household listed twice
    counts twice, one without a population entry counts 0. *)
Definition total_population {F} (data : Data F) : Z :=
  foldr (λ i acc, default 0 (population data !! i) + acc) 0 (households data).

(** The number of listed households an assignment gives to site [j]. *)
Definition assigned_to {F} (data : Data F) (val : nat → Z) (j : string) : Z :=
  foldr (λ i acc, from_option val 0 (assign_vars data !! (i, j)) + acc) 0
    (households data).

(** The number of candidate sites an assignment opens. *)
Definition opened_candidates {F} (data : Data F) (val : nat → Z) : Z :=
  foldr (λ j acc, from_option val 0 (open_vars data !! j) + acc) 0
    (candidate_hospitals data).

(** ** The model [main] of solve.py solves

    [main] does not call [build_model]: it repeats the dense formulation
    inline, all pairs and no lazy flag, under the name of the sparse one. *)
Definition main_model {F} (data : Data F) : result gp.Model :=
  '(model, y) ← build_common "TimorLeste_Healthcare" data;
  constr_distance_dense (households data) (all_hospitals data)
    (distance_indicators data) y model.

(* ================================================================== *)
(** * Properties *)

(** ** Results and loops *)

Lemma bind_Ok {A B} (r : result A) (f : A → result B) b :
  r ≫= f = Ok b ↔ ∃ a, r = Ok a ∧ f a = Ok b.
Proof.
  destruct r as [a|e]; simpl.
  - split; [eauto | intros (a' & [= <-] & ?); done].
  - split; [done | intros (a' & ? & ?); done].
Qed.

Lemma bind_raises {A B} (r : result A) (f : A → result B) :
  raises (r ≫= f) ↔ raises r ∨ ∃ a, r = Ok a ∧ raises (f a).
Proof.
  destruct r as [a|e]; simpl.
  - split; [eauto | intros [[] | (a' & [= <-] & ?)]; done].
  - split; [auto | done].
Qed.

Lemma not_raises_Ok {A} (r : result A) : ¬ raises r ↔ ∃ a, r = Ok a.
Proof.
  destruct r; simpl; split; eauto; try tauto.
  intros [a [=]].
Qed.

Section Loops.
Context {A B : Type}.
Implicit Types (l : list A) (gen : A → result (list B)).

Lemma collect_Ok l gen bs :
  collect l gen = Ok bs →
  ∀ b, b ∈ bs ↔ ∃ a cs, a ∈ l ∧ gen a = Ok cs ∧ b ∈ cs.
Proof.
  revert bs. induction l as [|a l IH]; intros bs; simpl.
  - intros [= <-] b. split; [by intros ?%elem_of_nil |].
    by intros (a & cs & ?%elem_of_nil & _).
  - intros (cs & Hcs & (rest & Hrest & [= <-])%bind_Ok)%bind_Ok b.
    rewrite elem_of_app, (IH _ Hrest). split.
    + intros [Hb | (a' & cs' & Ha' & Hg & Hb)].
      * exists a, cs. by rewrite elem_of_cons; auto.
      * exists a', cs'. rewrite elem_of_cons; auto.
    + intros (a' & cs' & [-> | Ha']%elem_of_cons & Hg & Hb).
      * left. congruence.
      * right. eauto.
Qed.

Lemma collect_all_Ok l gen bs :
  collect l gen = Ok bs → ∀ a, a ∈ l → ∃ cs, gen a = Ok cs.
Proof.
  revert bs. induction l as [|a l IH]; intros bs; simpl.
  - by intros _ a ?%elem_of_nil.
  - intros (cs & Hcs & (rest & Hrest & _)%bind_Ok)%bind_Ok a' [-> | Ha']%elem_of_cons;
      eauto.
Qed.

Lemma collect_raises l gen :
  raises (collect l gen) ↔ ∃ a, a ∈ l ∧ raises (gen a).
Proof.
  induction l as [|a l IH]; simpl.
  - split; [done | by intros (a & ?%elem_of_nil & _)].
  - rewrite bind_raises. split.
    + intros [Ha | (cs & Hcs & Hr)].
      * exists a. by rewrite elem_of_cons; auto.
      * apply bind_raises in Hr as [Hr | (rest & _ & [])].
        apply IH in Hr as (a' & ? & ?). exists a'. rewrite elem_of_cons; auto.
    + intros (a' & [-> | Ha']%elem_of_cons & Hr); [by left |].
      destruct (gen a) as [cs|e] eqn:Hg; [right | by left].
      exists cs. split; [done |]. apply bind_raises. left. apply IH. eauto.
Qed.

Lemma collect_ext l gen gen' :
  (∀ a, a ∈ l → gen a = gen' a) → collect l gen = collect l gen'.
Proof.
  induction l as [|a l IH]; intros Hext; simpl; [done |].
  rewrite (Hext a), IH; [done | | ]; intros; try apply Hext; rewrite elem_of_cons; auto.
Qed.

Lemma collect_singletons_length l (f : A → result B) bs :
  collect l (λ a, b ← f a; Ok [b]) = Ok bs → length bs = length l.
Proof.
  revert bs. induction l as [|a l IH]; intros bs; simpl.
  - by intros [= <-].
  - intros (cs & (b & _ & [= <-])%bind_Ok & (rest & Hrest & [= <-])%bind_Ok)%bind_Ok.
    simpl. f_equal. by apply IH.
Qed.
End Loops.

(** ** Variable allocation *)

Lemma add_vars_nil m : add_vars [] m = m.
Proof. destruct m. unfold add_vars; simpl. by rewrite app_nil_r. Qed.

Lemma add_vars_app l1 l2 m : add_vars l2 (add_vars l1 m) = add_vars (l1 ++ l2) m.
Proof. unfold add_vars; simpl. by rewrite app_assoc. Qed.

Lemma addVar_add_vars vt name m : (gp.addVar vt name m).2 = add_vars [(vt, name)] m.
Proof. done. Qed.

Section Alloc.
Context {K : Type} `{Countable K}.
Implicit Types (keys : list K) (d : gmap K gp.Var).

Lemma alloc_loop (name : K → string) keys m d :
  foldl (λ '(model, x) k,
           let '(v, model') := gp.addVar gp.BINARY (name k) model in
           (model', <[k := v]> x)) (m, d) keys
  = (add_vars (binary_named name keys) m, alloc_map keys (length (gp.vars m)) d).
Proof.
  revert m d. induction keys as [|k ks IH]; intros m d; simpl.
  - by rewrite add_vars_nil.
  - rewrite IH. simpl. rewrite length_app, Nat.add_1_r. f_equal.
    unfold add_vars; simpl. by rewrite <- app_assoc.
Qed.

Lemma alloc_map_app ks1 ks2 n d :
  alloc_map (ks1 ++ ks2) n d = alloc_map ks2 (n + length ks1) (alloc_map ks1 n d).
Proof.
  revert n d. induction ks1 as [|k ks1 IH]; intros n d; simpl.
  - by rewrite Nat.add_0_r.
  - rewrite IH. f_equal. lia.
Qed.

Lemma alloc_map_notin keys n d k :
  k ∉ keys → alloc_map keys n d !! k = d !! k.
Proof.
  revert n d. induction keys as [|k' ks IH]; intros n d Hk; simpl; [done |].
  apply not_elem_of_cons in Hk as [Hne Hk].
  rewrite IH by done. by rewrite lookup_insert_ne.
Qed.

Lemma alloc_map_in keys n d k :
  k ∈ keys → ∃ v, alloc_map keys n d !! k = Some v ∧ (n ≤ v < n + length keys)%nat.
Proof.
  revert n d. induction keys as [|k' ks IH]; intros n d Hk; simpl.
  - by apply elem_of_nil in Hk.
  - destruct (decide (k ∈ ks)) as [Hin | Hnin].
    + destruct (IH (S n) (<[k' := n]> d) Hin) as (v & Hv & Hr).
      exists v. split; [done | lia].
    + apply elem_of_cons in Hk as [-> | ?]; [| done].
      exists n. rewrite alloc_map_notin by done.
      rewrite lookup_insert_eq. split; [done | lia].
Qed.

Lemma alloc_map_range keys n d k v :
  alloc_map keys n d !! k = Some v →
  (k ∈ keys ∧ (n ≤ v < n + length keys)%nat) ∨ ((k ∉ keys) ∧ d !! k = Some v).
Proof.
  intros Hv. destruct (decide (k ∈ keys)) as [Hin | Hnin].
  - left. split; [done |]. destruct (alloc_map_in keys n d k Hin) as (v' & Hv' & Hr).
    congruence.
  - right. by rewrite alloc_map_notin in Hv.
Qed.
End Alloc.

Lemma add_open_vars_eq sites m x :
  add_open_vars sites (m, x)
  = (add_vars (binary_named x_name sites) m, alloc_map sites (length (gp.vars m)) x).
Proof. apply (alloc_loop x_name). Qed.

Lemma add_assign_row_eq (i : string) (sites : list string) m y :
  foldl (λ '(model, y) j,
           let '(v, model') := gp.addVar gp.BINARY ("y_" +:+ i +:+ "_" +:+ j) model in
           (model', <[(i, j) := v]> y)) (m, y) sites
  = (add_vars (binary_named y_name (pair i <$> sites)) m,
     alloc_map (pair i <$> sites) (length (gp.vars m)) y).
Proof.
  revert m y. induction sites as [|j sites IHs]; intros m y; cbn [foldl fmap list_fmap].
  - by rewrite add_vars_nil.
  - cbn [gp.addVar]. rewrite IHs. cbn [gp.vars alloc_map binary_named fmap list_fmap]. rewrite length_app, Nat.add_1_r. f_equal.
    unfold add_vars; simpl. by rewrite <- app_assoc.
Qed.

Lemma add_assign_vars_eq hs sites m y :
  add_assign_vars hs sites (m, y)
  = (add_vars (binary_named y_name (pairs hs sites)) m,
     alloc_map (pairs hs sites) (length (gp.vars m)) y).
Proof.
  unfold add_assign_vars, pairs. revert m y.
  induction hs as [|i hs IH]; intros m y; cbn [foldl mbind list_bind].
  - by rewrite add_vars_nil.
  - rewrite add_assign_row_eq, IH. rewrite add_vars_app. unfold binary_named.
    rewrite fmap_app. f_equal.
    rewrite alloc_map_app. simpl. rewrite length_app.
    by rewrite !length_fmap.
Qed.

Lemma elem_of_pairs hs sites i j : (i, j) ∈ pairs hs sites ↔ i ∈ hs ∧ j ∈ sites.
Proof.
  unfold pairs. rewrite list_elem_of_bind. split.
  - intros (i' & (j' & [= -> ->] & Hj)%list_elem_of_fmap & Hi). done.
  - intros [Hi Hj]. exists i. split; [| done]. apply list_elem_of_fmap. eauto.
Qed.

Lemma open_vars_eq {F} (data : Data F) :
  open_vars data = alloc_map (all_hospitals data) 0 ∅.
Proof. unfold open_vars. by rewrite add_open_vars_eq. Qed.

Lemma assign_vars_eq {F} (data : Data F) :
  assign_vars data
  = alloc_map (pairs (households data) (all_hospitals data))
      (length (all_hospitals data)) ∅.
Proof.
  unfold assign_vars. rewrite add_open_vars_eq. simpl.
  rewrite add_assign_vars_eq. simpl. unfold binary_named. by rewrite length_fmap.
Qed.

(** ** The builders in normal form *)

Lemma addConstrs_nil m : gp.addConstrs [] m = m.
Proof. destruct m. unfold gp.addConstrs; simpl. by rewrite app_nil_r. Qed.

Lemma addConstrs_app cs1 cs2 m :
  gp.addConstrs cs2 (gp.addConstrs cs1 m) = gp.addConstrs (cs1 ++ cs2) m.
Proof. unfold gp.addConstrs; simpl. by rewrite app_assoc. Qed.

Lemma for_each_emit {A} (l : list A) (gen : A → result (list gp.Constr)) body :
  (∀ a m, body a m = (cs ← gen a; Ok (gp.addConstrs cs m))) →
  ∀ m, for_each l body m = (cs ← collect l gen; Ok (gp.addConstrs cs m)).
Proof.
  intros Hbody. induction l as [|a l IH]; intros m; simpl.
  - by rewrite addConstrs_nil.
  - rewrite Hbody. destruct (gen a) as [cs|e]; simpl; [| done].
    rewrite IH. destruct (collect l gen) as [rest|e]; simpl; [| done].
    by rewrite addConstrs_app.
Qed.

Lemma constr_existing_eq existing x m :
  constr_existing existing x m
  = (cs ← collect existing (λ j, xj ← getitem x j; Ok [c_existing j xj]);
     Ok (gp.addConstrs cs m)).
Proof.
  unfold constr_existing. apply for_each_emit. intros j m'.
  by destruct (getitem x j).
Qed.

Lemma constr_linking_eq hs sites x y m :
  constr_linking hs sites x y m
  = (cs ← collect sites (λ j,
       ts ← collect hs (λ i, yij ← getitem2 y i j; Ok [(1, yij)]);
       xj ← getitem x j;
       Ok [c_linking j ts (length hs) xj]);
     Ok (gp.addConstrs cs m)).
Proof.
  unfold constr_linking. apply for_each_emit. intros j m'.
  destruct (collect hs _); simpl; [| done]. by destruct (getitem x j).
Qed.

Lemma constr_single_eq hs sites y m :
  constr_single hs sites y m
  = (cs ← collect hs (λ i,
       ts ← collect sites (λ j, yij ← getitem2 y i j; Ok [(1, yij)]);
       Ok [c_single i ts]);
     Ok (gp.addConstrs cs m)).
Proof.
  unfold constr_single. apply for_each_emit. intros i m'.
  by destruct (collect sites _).
Qed.

Lemma constr_distance_dense_eq hs sites ind y m :
  constr_distance_dense hs sites ind y m
  = (cs ← collect hs (λ i, collect sites (λ j,
       yij ← getitem2 y i j;
       row ← getitem ind i;
       d ← getitem row j;
       Ok [c_distance i j yij d]));
     Ok (gp.addConstrs cs m)).
Proof.
  unfold constr_distance_dense. apply for_each_emit. intros i m'.
  apply for_each_emit. intros j m''.
  destruct (getitem2 y i j); simpl; [| done].
  destruct (getitem ind i) as [row|]; simpl; [| done].
  by destruct (getitem row j).
Qed.

Lemma constr_distance_lazy_eq hs sites ind y m :
  constr_distance_lazy hs sites ind y m
  = (cs ← collect hs (λ i, collect sites (λ j,
       row ← getitem ind i;
       d ← getitem row j;
       if d =? 0 then yij ← getitem2 y i j; Raise (TypeError "lazy")
       else Ok []));
     Ok (gp.addConstrs cs m)).
Proof.
  unfold constr_distance_lazy. apply for_each_emit. intros i m'.
  apply for_each_emit. intros j m''.
  destruct (getitem ind i) as [row|]; simpl; [| done].
  destruct (getitem row j) as [d|]; simpl; [| done].
  destruct (d =? 0); simpl.
  - by destruct (getitem2 y i j).
  - by rewrite addConstrs_nil.
Qed.

Lemma build_common_eq {F} (name : string) (data : Data F)
    (k : gmap (string * string) gp.Var → gp.Model → result gp.Model)
    (fam : result (list gp.Constr)) :
  (∀ m, k (assign_vars data) m = (cs ← fam; Ok (gp.addConstrs cs m))) →
  ('(model, y) ← build_common name data; k y model) = formulation name data fam.
Proof.
  intros Hk. unfold build_common, formulation.
  rewrite add_open_vars_eq. cbn [gp.new gp.vars length].
  rewrite add_assign_vars_eq.
  rewrite <- open_vars_eq.
  replace (length (gp.vars (add_vars (binary_named x_name (all_hospitals data))
                              (gp.new name))))
    with (length (all_hospitals data))
    by (unfold binary_named; simpl; by rewrite length_fmap).
  rewrite <- assign_vars_eq.
  destruct (coverage_objective _ _ _ _) as [obj|e]; cbn [mbind result_bind]; [| done].
  rewrite constr_existing_eq. unfold family_existing.
  destruct (collect (existing_hospitals data) _) as [c1|e]; cbn [mbind result_bind]; [| done].
  unfold constr_budget, family_budget.
  destruct (collect (candidate_hospitals data) _) as [ts|e]; cbn [mbind result_bind]; [| done].
  rewrite constr_linking_eq. unfold family_linking.
  destruct (collect (all_hospitals data) _) as [c3|e]; cbn [mbind result_bind]; [| done].
  rewrite constr_single_eq. unfold family_single.
  destruct (collect (households data) _) as [c4|e]; cbn [mbind result_bind]; [| done].
  rewrite Hk. destruct fam as [c5|e]; cbn [mbind result_bind]; [| done].
  f_equal. unfold gp.addConstrs, gp.addConstr, gp.setObjective, add_vars, gp.new; simpl.
  f_equal. by rewrite <- !app_assoc.
Qed.

Lemma generate_gurobipy_model_eq {F} (data : Data F) :
  generate_gurobipy_model data
  = formulation "TimorLeste_Inefficient" data (family_distance_dense data).
Proof.
  unfold generate_gurobipy_model.
  apply (build_common_eq _ data (constr_distance_dense _ _ _)).
  intros m. apply constr_distance_dense_eq.
Qed.

Lemma build_model_eq {F} (data : Data F) :
  build_model data
  = formulation "TimorLeste_Healthcare" data (family_distance_lazy data).
Proof.
  unfold build_model.
  apply (build_common_eq _ data (constr_distance_lazy _ _ _)).
  intros m. apply constr_distance_lazy_eq.
Qed.

(** ** Nested generators *)

Section Loops2.
Context {A B C : Type}.
Implicit Types (la : list A) (lb : list B) (gen : A → B → result (list C)).

Lemma collect2_Ok la lb gen cs :
  collect la (λ a, collect lb (gen a)) = Ok cs →
  ∀ c, c ∈ cs ↔ ∃ a b cs', a ∈ la ∧ b ∈ lb ∧ gen a b = Ok cs' ∧ c ∈ cs'.
Proof.
  intros Hcs c. rewrite (collect_Ok _ _ _ Hcs). split.
  - intros (a & row & Ha & Hrow & Hc).
    apply (collect_Ok _ _ _ Hrow) in Hc as (b & cs' & ? & ? & ?). eauto 8.
  - intros (a & b & cs' & Ha & Hb & Hg & Hc).
    destruct (collect_all_Ok _ _ _ Hcs a Ha) as [row Hrow].
    exists a, row. split_and!; [done.. |].
    apply (collect_Ok _ _ _ Hrow). eauto.
Qed.

Lemma collect2_all_Ok la lb gen cs :
  collect la (λ a, collect lb (gen a)) = Ok cs →
  ∀ a b, a ∈ la → b ∈ lb → ∃ cs', gen a b = Ok cs'.
Proof.
  intros Hcs a b Ha Hb.
  destruct (collect_all_Ok _ _ _ Hcs a Ha) as [row Hrow].
  by apply (collect_all_Ok _ _ _ Hrow).
Qed.

Lemma collect2_raises la lb gen :
  raises (collect la (λ a, collect lb (gen a)))
  ↔ ∃ a b, a ∈ la ∧ b ∈ lb ∧ raises (gen a b).
Proof.
  rewrite collect_raises. split.
  - intros (a & Ha & (b & Hb & Hr)%collect_raises). eauto.
  - intros (a & b & Ha & Hb & Hr). exists a. split; [done |].
    apply collect_raises. eauto.
Qed.
End Loops2.

Lemma collect_rel {A B C} (P : list B → list C → Prop) (l : list A)
    (g1 : A → result (list B)) (g2 : A → result (list C)) :
  P [] [] →
  (∀ b1 c1 b2 c2, P b1 c1 → P b2 c2 → P (b1 ++ b2) (c1 ++ c2)) →
  (∀ a b c, a ∈ l → g1 a = Ok b → g2 a = Ok c → P b c) →
  ∀ bs cs, collect l g1 = Ok bs → collect l g2 = Ok cs → P bs cs.
Proof.
  intros Hnil Happ. induction l as [|a l IH]; intros Hg bs cs; simpl.
  - by intros [= <-] [= <-].
  - intros (b & Hb & (bs' & Hbs & [= <-])%bind_Ok)%bind_Ok
           (c & Hc & (cs' & Hcs & [= <-])%bind_Ok)%bind_Ok.
    apply Happ.
    + apply (Hg a); [rewrite elem_of_cons; auto | done..].
    + apply IH; [| done..]. intros a' ???. apply (Hg a'). rewrite elem_of_cons; auto.
Qed.

(** ** Semantics of a model *)

Lemma domains_ok_spec m val :
  gp.domains_ok m val = true
  ↔ ∀ i vt name, gp.vars m !! i = Some (vt, name) → gp.in_domain vt (val i) = true.
Proof.
  unfold gp.domains_ok. rewrite forallb_forall. split.
  - intros Hall i vt name Hi.
    apply (Hall (i, (vt, name))). apply list_elem_of_In.
    by apply (elem_of_lookup_imap_2 pair).
  - intros Hdom [i [vt name]] Hin%list_elem_of_In.
    apply elem_of_lookup_imap in Hin as (i' & x & [= <- <-] & Hi). simpl. eauto.
Qed.

Lemma feasible_spec m val :
  gp.feasible m val = true
  ↔ gp.domains_ok m val = true ∧ ∀ c, c ∈ gp.constrs m → gp.holds val c = true.
Proof.
  unfold gp.feasible. rewrite andb_true_iff, forallb_forall.
  by setoid_rewrite list_elem_of_In.
Qed.

Lemma eval_quicksum_zero val ts :
  (∀ t, t ∈ ts → val t.2 = 0) → gp.eval val (gp.quicksum ts) = 0.
Proof.
  unfold gp.eval; simpl. induction ts as [|t ts IH]; intros Hz; simpl; [done |].
  rewrite IH by (intros; apply Hz; rewrite elem_of_cons; auto).
  rewrite (Hz t) by (rewrite elem_of_cons; auto). lia.
Qed.

Lemma eval_quicksum_ones val ts :
  (∀ t, t ∈ ts → t.1 = 1 ∧ val t.2 = 1) →
  gp.eval val (gp.quicksum ts) = Z.of_nat (length ts).
Proof.
  unfold gp.eval; simpl. induction ts as [|t ts IH]; intros H1; simpl; [done |].
  rewrite IH by (intros; apply H1; rewrite elem_of_cons; auto).
  destruct (H1 t) as [-> ->]; [rewrite elem_of_cons; auto | lia].
Qed.

Lemma in_domain_binary z : gp.in_domain gp.BINARY z = true ↔ z = 0 ∨ z = 1.
Proof. unfold gp.in_domain. rewrite orb_true_iff, !Z.eqb_eq. done. Qed.

(** ** The declared variables *)

Lemma open_vars_in {F} (data : Data F) j :
  j ∈ all_hospitals data →
  ∃ xj, open_vars data !! j = Some xj ∧ (xj < length (all_hospitals data))%nat.
Proof.
  intros Hj. rewrite open_vars_eq.
  destruct (alloc_map_in (all_hospitals data) 0 ∅ j Hj) as (v & Hv & Hr).
  exists v. split; [done | lia].
Qed.

Lemma open_vars_Some {F} (data : Data F) j xj :
  open_vars data !! j = Some xj →
  j ∈ all_hospitals data ∧ (xj < length (all_hospitals data))%nat.
Proof.
  rewrite open_vars_eq. intros [[? ?] | [_ Hemp]]%alloc_map_range.
  - split; [done | lia].
  - by rewrite lookup_empty in Hemp.
Qed.

Lemma assign_vars_in {F} (data : Data F) i j :
  i ∈ households data → j ∈ all_hospitals data →
  ∃ yij, assign_vars data !! (i, j) = Some yij
    ∧ (length (all_hospitals data) ≤ yij
       < length (all_hospitals data)
         + length (pairs (households data) (all_hospitals data)))%nat.
Proof.
  intros Hi Hj. rewrite assign_vars_eq.
  apply alloc_map_in. by apply elem_of_pairs.
Qed.

Lemma assign_vars_Some {F} (data : Data F) i j yij :
  assign_vars data !! (i, j) = Some yij →
  i ∈ households data ∧ j ∈ all_hospitals data
  ∧ (length (all_hospitals data) ≤ yij
     < length (all_hospitals data)
       + length (pairs (households data) (all_hospitals data)))%nat.
Proof.
  rewrite assign_vars_eq. intros [[Hin ?] | [_ Hemp]]%alloc_map_range.
  - apply elem_of_pairs in Hin as [? ?]. done.
  - by rewrite lookup_empty in Hemp.
Qed.

Lemma getitem_Ok {V} (d : gmap string V) k v : getitem d k = Ok v ↔ d !! k = Some v.
Proof. unfold getitem. destruct (d !! k); split; congruence. Qed.

Lemma getitem_raises {V} (d : gmap string V) k : raises (getitem d k) ↔ d !! k = None.
Proof. unfold getitem. by destruct (d !! k). Qed.

Lemma getitem2_Ok {V} (d : gmap (string * string) V) i j v :
  getitem2 d i j = Ok v ↔ d !! (i, j) = Some v.
Proof. unfold getitem2. destruct (d !! (i, j)); split; congruence. Qed.

Lemma getitem2_raises {V} (d : gmap (string * string) V) i j :
  raises (getitem2 d i j) ↔ d !! (i, j) = None.
Proof. unfold getitem2. by destruct (d !! (i, j)). Qed.

Lemma binary_named_lookup {K} (name : K → string) keys idx vt n :
  binary_named name keys !! idx = Some (vt, n) → vt = gp.BINARY.
Proof.
  unfold binary_named. rewrite list_lookup_fmap.
  destruct (keys !! idx); simpl; congruence.
Qed.

(** A model produced by [formulation], taken apart. *)
Lemma formulation_Ok {F} name (data : Data F) fam m :
  formulation name data fam = Ok m →
  ∃ obj c1 c2 c3 c4 c5,
    coverage_objective (households data) (all_hospitals data) (population data)
      (assign_vars data) = Ok obj
    ∧ family_existing data = Ok c1 ∧ family_budget data = Ok c2
    ∧ family_linking data = Ok c3 ∧ family_single data = Ok c4 ∧ fam = Ok c5
    ∧ m = {| gp.ModelName := name;
             gp.vars := binary_named x_name (all_hospitals data)
                        ++ binary_named y_name
                             (pairs (households data) (all_hospitals data));
             gp.objective := obj;
             gp.ModelSense := gp.MAXIMIZE;
             gp.constrs := c1 ++ c2 ++ c3 ++ c4 ++ c5 |}.
Proof.
  unfold formulation.
  intros (obj & ? & (c1 & ? & (c2 & ? & (c3 & ? & (c4 & ? & (c5 & ? & [= <-])
    %bind_Ok)%bind_Ok)%bind_Ok)%bind_Ok)%bind_Ok)%bind_Ok.
  by exists obj, c1, c2, c3, c4, c5.
Qed.


Lemma formulation_domains {F} name (data : Data F) fam m val :
  formulation name data fam = Ok m →
  gp.domains_ok m val = true
  ↔ ∀ idx, (idx < length (all_hospitals data)
                  + length (pairs (households data) (all_hospitals data)))%nat →
           val idx = 0 ∨ val idx = 1.
Proof.
  intros (obj & c1 & c2 & c3 & c4 & c5 & _ & _ & _ & _ & _ & _ & ->)%formulation_Ok.
  rewrite domains_ok_spec. cbn [gp.vars].
  set (vs := binary_named x_name _ ++ binary_named y_name _).
  assert (Hlen : length vs
    = (length (all_hospitals data)
       + length (pairs (households data) (all_hospitals data)))%nat).
  { unfold vs, binary_named. by rewrite length_app, !length_fmap. }
  assert (Hbin : ∀ idx vt n, vs !! idx = Some (vt, n) → vt = gp.BINARY).
  { intros idx vt n. unfold vs. rewrite lookup_app.
    destruct (binary_named x_name _ !! idx) as [[vt' n']|] eqn:Hx.
    - intros [= -> ->]. by eapply binary_named_lookup.
    - apply binary_named_lookup. }
  rewrite <- Hlen. split.
  - intros Hdom idx Hidx.
    destruct (lookup_lt_is_Some_2 vs idx Hidx) as [[vt n] Hv].
    apply in_domain_binary. rewrite <- (Hbin _ _ _ Hv). eauto.
  - intros Hval idx vt n Hv. rewrite (Hbin _ _ _ Hv).
    apply in_domain_binary, Hval. by eapply lookup_lt_Some.
Qed.

Lemma indicators_binary_spec {F} (data : Data F) :
  indicators_binary data = true
  ↔ ∀ i j row d, i ∈ households data → j ∈ all_hospitals data →
      distance_indicators data !! i = Some row → row !! j = Some d → d = 0 ∨ d = 1.
Proof.
  unfold indicators_binary. rewrite forallb_forall. split.
  - intros Hall i j row d Hi%list_elem_of_In Hj%list_elem_of_In Hrow Hd.
    specialize (Hall i Hi). rewrite forallb_forall in Hall.
    specialize (Hall j Hj). rewrite Hrow, Hd in Hall.
    by rewrite orb_true_iff, !Z.eqb_eq in Hall.
  - intros Hbin i Hi%list_elem_of_In. rewrite forallb_forall.
    intros j Hj%list_elem_of_In.
    destruct (distance_indicators data !! i) as [row|] eqn:Hrow; [| done].
    destruct (row !! j) as [d|] eqn:Hd; [| done].
    rewrite orb_true_iff, !Z.eqb_eq. eauto.
Qed.

(** ** The distance-limit family, dense and lazy *)

Lemma holds_c_distance val i j yij d :
  gp.holds val (c_distance i j yij d) = true ↔ val yij ≤ d.
Proof.
  unfold gp.holds, c_distance, gp.eval; simpl. rewrite Z.leb_le. lia.
Qed.

Lemma family_distance_dense_Ok {F} (data : Data F) cs :
  family_distance_dense data = Ok cs →
  ∀ c, c ∈ cs ↔ ∃ i j yij row d,
    i ∈ households data ∧ j ∈ all_hospitals data
    ∧ assign_vars data !! (i, j) = Some yij
    ∧ distance_indicators data !! i = Some row ∧ row !! j = Some d
    ∧ c = c_distance i j yij d.
Proof.
  intros Hcs c. unfold family_distance_dense in Hcs.
  rewrite (collect2_Ok _ _ _ _ Hcs). split.
  - intros (i & j & cs' & Hi & Hj & Hg & Hc).
    apply bind_Ok in Hg as (yij & Hy%getitem2_Ok & Hg).
    apply bind_Ok in Hg as (row & Hrow%getitem_Ok & Hg).
    apply bind_Ok in Hg as (d & Hd%getitem_Ok & [= <-]).
    apply list_elem_of_singleton in Hc as ->. eauto 12.
  - intros (i & j & yij & row & d & Hi & Hj & Hy & Hrow & Hd & ->).
    exists i, j, [c_distance i j yij d]. split_and!; [done.. | |].
    + apply getitem2_Ok in Hy. apply getitem_Ok in Hrow, Hd.
      by rewrite Hy; simpl; rewrite Hrow; simpl; rewrite Hd.
    + by apply list_elem_of_singleton.
Qed.

Lemma family_distance_lazy_Ok {F} (data : Data F) cs :
  family_distance_lazy data = Ok cs →
  cs = []
  ∧ ∀ i j, i ∈ households data → j ∈ all_hospitals data →
      ∃ row d, distance_indicators data !! i = Some row ∧ row !! j = Some d ∧ d ≠ 0.
Proof.
  intros Hcs. unfold family_distance_lazy in Hcs. split.
  - apply elem_of_nil_inv. intros c Hc.
    apply (collect2_Ok _ _ _ _ Hcs) in Hc as (i & j & cs' & _ & _ & Hg & Hc).
    apply bind_Ok in Hg as (row & _ & Hg). apply bind_Ok in Hg as (d & _ & Hg).
    destruct (d =? 0).
    + by apply bind_Ok in Hg as (yij & _ & [=]).
    + injection Hg as <-. by apply elem_of_nil in Hc.
  - intros i j Hi Hj. destruct (collect2_all_Ok _ _ _ _ Hcs i j Hi Hj) as [cs' Hg].
    apply bind_Ok in Hg as (row & Hrow%getitem_Ok & Hg).
    apply bind_Ok in Hg as (d & Hd%getitem_Ok & Hg).
    exists row, d. split_and!; [done.. |]. intros ->. simpl in Hg.
    by apply bind_Ok in Hg as (yij & _ & [=]).
Qed.

(** The sparse family reads the same indicator entries as the dense one, and
    raises in addition at a visited pair whose indicator is 0. *)
Lemma family_distance_lazy_raises {F} (data : Data F) :
  raises (family_distance_lazy data)
  ↔ raises (family_distance_dense data)
    ∨ ∃ i j row, i ∈ households data ∧ j ∈ all_hospitals data
                 ∧ distance_indicators data !! i = Some row ∧ row !! j = Some 0.
Proof.
  unfold family_distance_dense, family_distance_lazy.
  rewrite !collect2_raises. split.
  - intros (i & j & Hi & Hj & Hr).
    destruct (distance_indicators data !! i) as [row|] eqn:Hrow.
    + destruct (row !! j) as [d|] eqn:Hd.
      * right. exists i, j, row. split_and!; [done.. |].
        apply getitem_Ok in Hrow, Hd. rewrite Hrow in Hr. cbn [mbind result_bind] in Hr.
        rewrite Hd in Hr. cbn [mbind result_bind] in Hr.
        destruct (d =? 0) eqn:Hd0; [| done].
        apply Z.eqb_eq in Hd0 as ->. by apply getitem_Ok.
      * left. exists i, j. split_and!; [done.. |].
        destruct (getitem2 (assign_vars data) i j); cbn [mbind result_bind]; [| done].
        apply getitem_Ok in Hrow. rewrite Hrow. cbn [mbind result_bind].
        apply getitem_raises in Hd. by destruct (getitem row j).
    + left. exists i, j. split_and!; [done.. |].
      destruct (getitem2 (assign_vars data) i j); cbn [mbind result_bind]; [| done].
      apply getitem_raises in Hrow.
      by destruct (getitem (distance_indicators data) i).
  - intros [(i & j & Hi & Hj & Hr) | (i & j & row & Hi & Hj & Hrow & Hd)];
      exists i, j; (split_and!; [done.. |]).
    + destruct (assign_vars_in data i j Hi Hj) as (yij & Hy%getitem2_Ok & _).
      rewrite Hy in Hr. cbn [mbind result_bind] in Hr.
      destruct (getitem (distance_indicators data) i) as [row|e];
        cbn [mbind result_bind] in *; [| done].
      destruct (getitem row j) as [d|e]; cbn [mbind result_bind] in *; done.
    + destruct (assign_vars_in data i j Hi Hj) as (yij & Hy%getitem2_Ok & _).
      apply getitem_Ok in Hrow, Hd. rewrite Hrow. cbn [mbind result_bind].
      rewrite Hd. cbn [mbind result_bind]. simpl. by rewrite Hy.
Qed.

Lemma family_distance_equiv {F} (data : Data F) cd cl val :
  indicators_binary data = true →
  family_distance_dense data = Ok cd → family_distance_lazy data = Ok cl →
  (∀ i j yij, assign_vars data !! (i, j) = Some yij → val yij = 0 ∨ val yij = 1) →
  (∀ c, c ∈ cd → gp.holds val c = true) ↔ (∀ c, c ∈ cl → gp.holds val c = true).
Proof.
  intros Hbin0 Hcd Hcl Hval.
  pose proof (proj1 (indicators_binary_spec data) Hbin0) as Hbin.
  destruct (family_distance_lazy_Ok data cl Hcl) as [-> Hnz]. split.
  - by intros _ c ?%elem_of_nil.
  - intros _ c (i & j & yij & row & d & Hi & Hj & Hy & Hrow & Hd & ->)
      %(family_distance_dense_Ok _ _ Hcd).
    apply holds_c_distance.
    destruct (Hnz i j Hi Hj) as (row' & d' & Hrow' & Hd' & Hne).
    assert (row' = row) as -> by congruence. assert (d' = d) as -> by congruence.
    destruct (Hbin i j row d Hi Hj Hrow Hd) as [-> | ->]; [done |].
    destruct (Hval i j yij Hy); lia.
Qed.

(** ** The other four families *)

Lemma unit_terms_Ok {A} (l : list A) (f : A → result nat) ts :
  collect l (λ a, v ← f a; Ok [(1, v)]) = Ok ts →
  length ts = length l ∧ ∀ t, t ∈ ts ↔ ∃ a v, a ∈ l ∧ f a = Ok v ∧ t = (1, v).
Proof.
  intros Hts. split.
  - revert ts Hts. induction l as [|a l IH]; intros ts; simpl.
    + by intros [= <-].
    + intros (cs & (b & _ & [= <-])%bind_Ok & (rest & Hrest & [= <-])%bind_Ok)%bind_Ok.
      simpl. f_equal. by apply IH.
  - intros t. rewrite (collect_Ok _ _ _ Hts). split.
    + intros (a & cs & Ha & (v & Hv & [= <-])%bind_Ok & ->%list_elem_of_singleton).
      eauto.
    + intros (a & v & Ha & Hv & ->). exists a, [(1, v)].
      split_and!; [done | by rewrite Hv | by apply list_elem_of_singleton].
Qed.

Lemma family_existing_Ok {F} (data : Data F) cs :
  family_existing data = Ok cs →
  ∀ c, c ∈ cs ↔ ∃ j xj, j ∈ existing_hospitals data
                        ∧ open_vars data !! j = Some xj ∧ c = c_existing j xj.
Proof.
  intros Hcs c. unfold family_existing in Hcs. rewrite (collect_Ok _ _ _ Hcs). split.
  - intros (j & cs' & Hj & (xj & Hx%getitem_Ok & [= <-])%bind_Ok
            & ->%list_elem_of_singleton). eauto.
  - intros (j & xj & Hj & Hx%getitem_Ok & ->). exists j, [c_existing j xj].
    split_and!; [done | by rewrite Hx | by apply list_elem_of_singleton].
Qed.

Lemma family_budget_Ok {F} (data : Data F) cs :
  family_budget data = Ok cs →
  ∃ ts, cs = [c_budget ts (max_new_hospitals data)]
    ∧ ∀ t, t ∈ ts ↔ ∃ j xj, j ∈ candidate_hospitals data
                            ∧ open_vars data !! j = Some xj ∧ t = (1, xj).
Proof.
  unfold family_budget. intros (ts & Hts & [= <-])%bind_Ok.
  exists ts. split; [done |]. intros t.
  destruct (unit_terms_Ok _ _ _ Hts) as [_ Hin]. rewrite Hin.
  by setoid_rewrite getitem_Ok.
Qed.

Lemma unit_terms_Forall2 {A} (l : list A) (f : A → result nat) ts :
  collect l (λ a, v ← f a; Ok [(1, v)]) = Ok ts →
  Forall2 (λ a t, ∃ v, f a = Ok v ∧ t = (1, v)) l ts.
Proof.
  revert ts. induction l as [|a l IH]; intros ts; simpl.
  - intros [= <-]. constructor.
  - intros (cs & (v & Hv & [= <-])%bind_Ok & (rest & Hrest & [= <-])%bind_Ok)%bind_Ok.
    simpl. constructor; eauto.
Qed.

Lemma family_linking_Ok {F} (data : Data F) cs :
  family_linking data = Ok cs →
  (∀ c, c ∈ cs → ∃ j, j ∈ all_hospitals data ∧ is_linking data j c)
  ∧ (∀ j, j ∈ all_hospitals data → ∃ c, c ∈ cs ∧ is_linking data j c).
Proof.
  intros Hcs. unfold family_linking in Hcs.
  assert (Hgen : ∀ j cs',
    (ts ← collect (households data) (λ i,
            yij ← getitem2 (assign_vars data) i j; Ok [(1, yij)]);
     xj ← getitem (open_vars data) j;
     Ok [c_linking j ts (length (households data)) xj]) = Ok cs' →
    ∃ c, cs' = [c] ∧ is_linking data j c).
  { intros j cs' (ts & Hts & (xj & Hx%getitem_Ok & [= <-])%bind_Ok)%bind_Ok.
    eexists. split; [done |]. exists ts, xj. split_and!; [done | | done].
    apply unit_terms_Forall2 in Hts.
    eapply Forall2_impl; [exact Hts |]. simpl.
    intros i t (yij & Hy%getitem2_Ok & ->). eauto. }
  split.
  - intros c Hc. apply (collect_Ok _ _ _ Hcs) in Hc as (j & cs' & Hj & Hg & Hc).
    apply Hgen in Hg as (c' & -> & Hl). apply list_elem_of_singleton in Hc as ->. eauto.
  - intros j Hj. destruct (collect_all_Ok _ _ _ Hcs j Hj) as [cs' Hg].
    destruct (Hgen _ _ Hg) as (c & -> & Hl). exists c. split; [| done].
    apply (collect_Ok _ _ _ Hcs). exists j, [c].
    split_and!; [done.. |]. by apply list_elem_of_singleton.
Qed.

Lemma family_single_Ok {F} (data : Data F) cs :
  family_single data = Ok cs →
  ∀ c, c ∈ cs → ∃ i, i ∈ households data ∧ is_single data i c.
Proof.
  intros Hcs c Hc. unfold family_single in Hcs.
  apply (collect_Ok _ _ _ Hcs) in Hc
    as (i & cs' & Hi & (ts & Hts & [= <-])%bind_Ok & ->%list_elem_of_singleton).
  exists i. split; [done |]. exists ts. split; [| done].
  apply unit_terms_Forall2 in Hts.
  eapply Forall2_impl; [exact Hts |]. simpl.
  intros j t (yij & Hy%getitem2_Ok & ->). eauto.
Qed.

(** ** The dense and the sparse model, when both are returned *)

Lemma domains_ok_vars m1 m2 val :
  gp.vars m1 = gp.vars m2 → gp.domains_ok m1 val = gp.domains_ok m2 val.
Proof. unfold gp.domains_ok. by intros ->. Qed.

Lemma assigned_binary {F} name (data : Data F) fam m val i j yij :
  formulation name data fam = Ok m →
  gp.domains_ok m val = true →
  assign_vars data !! (i, j) = Some yij → val yij = 0 ∨ val yij = 1.
Proof.
  intros Hm Hdom Hy. apply (formulation_domains _ _ _ _ val Hm); [done |].
  apply assign_vars_Some in Hy. lia.
Qed.

Lemma opened_binary {F} name (data : Data F) fam m val j xj :
  formulation name data fam = Ok m →
  gp.domains_ok m val = true →
  open_vars data !! j = Some xj → val xj = 0 ∨ val xj = 1.
Proof.
  intros Hm Hdom Hx. apply (formulation_domains _ _ _ _ val Hm); [done |].
  apply open_vars_Some in Hx. lia.
Qed.

Lemma dense_sparse_feasible {F} (data : Data F) dense sparse val :
  indicators_binary data = true →
  generate_gurobipy_model data = Ok dense → build_model data = Ok sparse →
  gp.feasible dense val = gp.feasible sparse val.
Proof.
  rewrite generate_gurobipy_model_eq, build_model_eq. intros Hbin Hd Hs.
  pose proof Hd as (obj & c1 & c2 & c3 & c4 & cd & Ho & H1 & H2 & H3 & H4 & Hcd & Ed)
    %formulation_Ok.
  pose proof Hs as (obj' & c1' & c2' & c3' & c4' & cl & Ho' & H1' & H2' & H3' & H4'
                    & Hcl & Es)%formulation_Ok.
  assert (obj' = obj) as -> by congruence. assert (c1' = c1) as -> by congruence.
  assert (c2' = c2) as -> by congruence. assert (c3' = c3) as -> by congruence.
  assert (c4' = c4) as -> by congruence.
  assert (Hv : gp.vars dense = gp.vars sparse) by (by rewrite Ed, Es).
  apply Bool.eq_iff_eq_true. rewrite !feasible_spec.
  rewrite (domains_ok_vars dense sparse val Hv).
  cut (gp.domains_ok sparse val = true →
       (∀ c, c ∈ gp.constrs dense → gp.holds val c = true)
       ↔ (∀ c, c ∈ gp.constrs sparse → gp.holds val c = true)); [tauto |].
  intros Hdom.
  pose proof (family_distance_equiv data cd cl val Hbin Hcd Hcl
                (λ i j yij, assigned_binary _ data _ sparse val i j yij Hs Hdom)) as Heq.
  rewrite Ed, Es. cbn [gp.constrs].
  split; intros Hall c; rewrite !elem_of_app;
    (intros [? | [? | [? | [? | Hc]]]];
      [apply Hall; rewrite !elem_of_app; auto 6 .. |]);
    revert c Hc; apply Heq; intros c Hc; apply Hall; rewrite !elem_of_app; auto 6.
Qed.

(** C1. The sparse-lazy formulation of the claim is not delivered: on an
    instance with 0/1 indicators and a pair out of reach the dense builder
    [generate_gurobipy_model] returns its model, while [build_model] raises
    [TypeError] at the first lazy constraint it asks for, because it passes
    [lazy=1] to [addConstr]. *)
Theorem sparse_builder_raises_on_lazy_keyword :
  indicators_binary example_data = true
  ∧ (∃ dense, generate_gurobipy_model example_data = Ok dense)
  ∧ build_model example_data = Raise (TypeError "lazy").
Proof.
  split_and!; [reflexivity | | vm_compute; reflexivity].
  eexists. vm_compute. reflexivity.
Qed.

(** ** The empty assignment *)

Lemma Forall2_elem_r {A B} (P : A → B → Prop) l k b :
  Forall2 P l k → b ∈ k → ∃ a, a ∈ l ∧ P a b.
Proof.
  induction 1 as [|a b' l k HP _ IH]; [by intros ?%elem_of_nil |].
  intros [-> | Hb]%elem_of_cons.
  - exists a. rewrite elem_of_cons. auto.
  - destruct (IH Hb) as (a' & ? & ?). exists a'. rewrite elem_of_cons. auto.
Qed.

Lemma holds_c_existing val j xj :
  gp.holds val (c_existing j xj) = true ↔ val xj = 1.
Proof. unfold gp.holds, c_existing, gp.eval; simpl. rewrite Z.eqb_eq. lia. Qed.

Lemma holds_c_budget val ts p :
  gp.holds val (c_budget ts p) = true ↔ gp.eval val (gp.quicksum ts) ≤ p.
Proof. unfold gp.holds, c_budget; simpl. rewrite Z.leb_le. done. Qed.

Lemma holds_c_linking val j ts n xj :
  gp.holds val (c_linking j ts n xj) = true
  ↔ gp.eval val (gp.quicksum ts) ≤ Z.of_nat n * val xj.
Proof.
  unfold gp.holds, c_linking; simpl. rewrite Z.leb_le.
  unfold gp.eval at 2; simpl. by rewrite Z.add_0_r.
Qed.

Lemma holds_c_single val i ts :
  gp.holds val (c_single i ts) = true ↔ gp.eval val (gp.quicksum ts) ≤ 1.
Proof. unfold gp.holds, c_single; simpl. rewrite Z.leb_le. done. Qed.

Lemma coverage_objective_terms hs sites pop y obj :
  coverage_objective hs sites pop y = Ok obj →
  gp.constant obj = 0
  ∧ ∀ t, t ∈ gp.terms obj ↔ ∃ i j, i ∈ hs ∧ j ∈ sites
                                   ∧ pop !! i = Some t.1 ∧ y !! (i, j) = Some t.2.
Proof.
  unfold coverage_objective. intros (ts & Hts & [= <-])%bind_Ok.
  split; [done |]. intros t. cbn [gp.terms gp.quicksum].
  rewrite (collect2_Ok _ _ _ _ Hts). split.
  - intros (i & j & cs & Hi & Hj
            & (p & Hp%getitem_Ok & (v & Hv%getitem2_Ok & [= <-])%bind_Ok)%bind_Ok
            & ->%list_elem_of_singleton). eauto 8.
  - intros (i & j & Hi & Hj & Hp%getitem_Ok & Hv%getitem2_Ok).
    exists i, j, [t]. split_and!; [done.. | | by apply list_elem_of_singleton].
    rewrite Hp; simpl. rewrite Hv; simpl. by destruct t.
Qed.

Lemma empty_assignment_satisfies {F} name (data : Data F) fam m (val : nat → Z) cs :
  formulation name data fam = Ok m → fam = Ok cs →
  (∀ c, c ∈ cs → gp.holds val c = true) →
  0 ≤ max_new_hospitals data →
  (∀ idx, val idx = 0 ∨ val idx = 1) →
  (∀ i j yij, assign_vars data !! (i, j) = Some yij → val yij = 0) →
  (∀ j xj, j ∈ existing_hospitals data → open_vars data !! j = Some xj → val xj = 1) →
  (∀ j xj, j ∈ candidate_hospitals data → open_vars data !! j = Some xj → val xj = 0) →
  gp.feasible m val = true ∧ gp.ObjVal m val = 0.
Proof.
  intros Hm Hfam Hcs Hp Hbin Hy Hex Hcand.
  pose proof Hm as (obj & c1 & c2 & c3 & c4 & c5 & Ho & H1 & H2 & H3 & H4 & H5 & E)
    %formulation_Ok.
  assert (c5 = cs) as -> by congruence. split.
  - apply feasible_spec. split.
    { apply (formulation_domains _ _ _ _ val Hm). auto. }
    rewrite E. cbn [gp.constrs]. intros c. rewrite !elem_of_app.
    intros [Hc | [Hc | [Hc | [Hc | Hc]]]]; [| | | | by apply Hcs].
    + apply (family_existing_Ok _ _ H1) in Hc as (j & xj & Hj & Hx & ->).
      apply holds_c_existing. eauto.
    + apply family_budget_Ok in H2 as (ts & -> & Hts).
      apply list_elem_of_singleton in Hc as ->. apply holds_c_budget.
      rewrite eval_quicksum_zero; [done |].
      intros t (j & xj & Hj & Hx & ->)%Hts. simpl. eauto.
    + apply family_linking_Ok in H3 as [H3 _].
      apply H3 in Hc as (j & Hj & ts & xj & Hx & Hts & ->).
      apply holds_c_linking. rewrite eval_quicksum_zero.
      * destruct (Hbin xj) as [-> | ->]; lia.
      * intros t Ht. destruct (Forall2_elem_r _ _ _ _ Hts Ht) as (i & _ & yij & Hyij & ->).
        simpl. eauto.
    + apply (family_single_Ok _ _ H4) in Hc as (i & Hi & ts & Hts & ->).
      apply holds_c_single. rewrite eval_quicksum_zero; [done |].
      intros t Ht. destruct (Forall2_elem_r _ _ _ _ Hts Ht) as (j & _ & yij & Hyij & ->).
      simpl. eauto.
  - unfold gp.ObjVal. rewrite E. cbn [gp.objective].
    apply coverage_objective_terms in Ho as [Hc Hts].
    destruct obj as [ts k]. simpl in *. subst k.
    apply (eval_quicksum_zero val ts).
    intros t (i & j & _ & _ & _ & Hv)%Hts. eauto.
Qed.

Lemma alloc_map_inj {K} `{Countable K} (keys : list K) n (d : gmap K nat) :
  (∀ k v, d !! k = Some v → (v < n)%nat) →
  (∀ k1 k2 v, d !! k1 = Some v → d !! k2 = Some v → k1 = k2) →
  ∀ k1 k2 v, alloc_map keys n d !! k1 = Some v → alloc_map keys n d !! k2 = Some v →
             k1 = k2.
Proof.
  revert n d. induction keys as [|k ks IH]; intros n d Hlt Hinj; simpl; [done |].
  apply IH.
  - intros k' v. rewrite lookup_insert. case_decide.
    + intros [= <-]. lia.
    + intros Hv%Hlt. lia.
  - intros k1 k2 v. rewrite !lookup_insert. repeat case_decide; subst.
    + done.
    + intros [= <-] Hv%Hlt. lia.
    + intros Hv%Hlt [= <-]. lia.
    + apply Hinj.
Qed.

Lemma open_vars_inj {F} (data : Data F) j1 j2 xj :
  open_vars data !! j1 = Some xj → open_vars data !! j2 = Some xj → j1 = j2.
Proof.
  rewrite open_vars_eq. apply alloc_map_inj; intros ?; by setoid_rewrite lookup_empty.
Qed.

Lemma empty_assignment_one {F} (data : Data F) idx :
  empty_assignment data idx = 1
  ↔ ∃ j, j ∈ existing_hospitals data ∧ open_vars data !! j = Some idx.
Proof.
  unfold empty_assignment.
  destruct (existsb _ _) eqn:Hex.
  - apply existsb_exists in Hex as (j & Hj%list_elem_of_In & Hx%bool_decide_eq_true).
    split; [eauto | done].
  - split; [done |]. intros (j & Hj%list_elem_of_In & Hx).
    assert (existsb (λ j, bool_decide (open_vars data !! j = Some idx))
              (existing_hospitals data) = true) as Ht; [| congruence].
    apply existsb_exists. exists j. split; [done |]. by apply bool_decide_eq_true.
Qed.

Lemma empty_assignment_binary {F} (data : Data F) idx :
  empty_assignment data idx = 0 ∨ empty_assignment data idx = 1.
Proof. unfold empty_assignment. destruct (existsb _ _); auto. Qed.

(** C6. When the budget is non-negative (and indicators are 0/1 flags), any
    0/1 assignment with every assignment variable 0, every existing site's
    open variable 1 and every candidate site's open variable 0 satisfies all
    constraints of the model either builder returns, with objective 0.  When
    no site is listed both as existing and as candidate, [empty_assignment]
    is such an assignment, so the formulation is feasible. *)
Theorem empty_assignment_feasible {F} (data : Data F) (m : gp.Model) :
  generate_gurobipy_model data = Ok m ∨ build_model data = Ok m →
  0 ≤ max_new_hospitals data →
  indicators_binary data = true →
  (∀ val : nat → Z,
     (∀ idx, val idx = 0 ∨ val idx = 1) →
     (∀ i j yij, assign_vars data !! (i, j) = Some yij → val yij = 0) →
     (∀ j xj, j ∈ existing_hospitals data → open_vars data !! j = Some xj → val xj = 1) →
     (∀ j xj, j ∈ candidate_hospitals data → open_vars data !! j = Some xj → val xj = 0) →
     gp.feasible m val = true ∧ gp.ObjVal m val = 0)
  ∧ ((∀ j, j ∈ existing_hospitals data → j ∉ candidate_hospitals data) →
     gp.feasible m (empty_assignment data) = true
     ∧ gp.ObjVal m (empty_assignment data) = 0).
Proof.
  intros Hm Hp Hbin0.
  pose proof (proj1 (indicators_binary_spec data) Hbin0) as Hbin.
  assert (Hmain : ∀ val : nat → Z,
     (∀ idx, val idx = 0 ∨ val idx = 1) →
     (∀ i j yij, assign_vars data !! (i, j) = Some yij → val yij = 0) →
     (∀ j xj, j ∈ existing_hospitals data → open_vars data !! j = Some xj → val xj = 1) →
     (∀ j xj, j ∈ candidate_hospitals data → open_vars data !! j = Some xj → val xj = 0) →
     gp.feasible m val = true ∧ gp.ObjVal m val = 0).
  { intros val Hb Hy Hex Hcand. destruct Hm as [Hm | Hm].
    - rewrite generate_gurobipy_model_eq in Hm.
      pose proof Hm as (_ & _ & _ & _ & _ & cd & _ & _ & _ & _ & _ & Hcd & _)
        %formulation_Ok.
      eapply empty_assignment_satisfies; [exact Hm | exact Hcd | | done..].
      intros c (i & j & yij & row & d & Hi & Hj & Hyij & Hrow & Hd & ->)
        %(family_distance_dense_Ok _ _ Hcd).
      apply holds_c_distance. rewrite (Hy i j yij Hyij).
      destruct (Hbin i j row d Hi Hj Hrow Hd); lia.
    - rewrite build_model_eq in Hm.
      pose proof Hm as (_ & _ & _ & _ & _ & cl & _ & _ & _ & _ & _ & Hcl & _)
        %formulation_Ok.
      eapply empty_assignment_satisfies; [exact Hm | exact Hcl | | done..].
      destruct (family_distance_lazy_Ok _ _ Hcl) as [-> _].
      by intros c ?%elem_of_nil. }
  split; [exact Hmain |].
  intros Hdisj. apply Hmain.
  - apply empty_assignment_binary.
  - intros i j yij Hy.
    destruct (empty_assignment_binary data yij) as [? | H1]; [done |].
    apply empty_assignment_one in H1 as (j' & _ & Hx%open_vars_Some).
    apply assign_vars_Some in Hy. lia.
  - intros j xj Hj Hx. apply empty_assignment_one. eauto.
  - intros j xj Hj Hx.
    destruct (empty_assignment_binary data xj) as [? | H1]; [done |].
    apply empty_assignment_one in H1 as (j' & Hj' & Hx').
    rewrite (open_vars_inj data j j' xj Hx Hx') in Hj. by apply Hdisj in Hj'.
Qed.

Lemma empty_assignment_feasible_witness :
  ∃ m, generate_gurobipy_model example_data = Ok m
       ∧ gp.feasible m (empty_assignment example_data) = true
       ∧ gp.ObjVal m (empty_assignment example_data) = 0.
Proof.
  eexists. split; [vm_compute; reflexivity |].
  refine (proj2 (empty_assignment_feasible example_data _ (or_introl eq_refl) _ eq_refl) _).
  - vm_compute. discriminate.
  - intros j Hj Hc. simpl in Hj, Hc.
    apply list_elem_of_singleton in Hj, Hc. congruence.
Defined.

(** ** The linking bound *)

Lemma eval_unit_terms {A} (f : A → option nat) (val : nat → Z) (l : list A) ts :
  Forall2 (λ a t, ∃ y, f a = Some y ∧ t = (1, y)) l ts →
  gp.eval val {| gp.terms := ts; gp.constant := 0 |}
  = foldr (λ a acc, from_option val 0 (f a) + acc) 0 l.
Proof.
  induction 1 as [|a t l ts (y & Hy & ->) _ IH]; [done |].
  cbn [foldr]. rewrite <- IH, Hy. unfold gp.eval. simpl. lia.
Qed.

Lemma unit_sum_le_length {A} (f : A → option nat) (val : nat → Z) (l : list A) :
  (∀ a y, f a = Some y → val y = 0 ∨ val y = 1) →
  foldr (λ a acc, from_option val 0 (f a) + acc) 0 l ≤ Z.of_nat (length l).
Proof.
  intros Hbin. induction l as [|a l IH]; [done |].
  cbn [foldr length]. destruct (f a) as [y|] eqn:Hy; simpl.
  - destruct (Hbin a y Hy); lia.
  - lia.
Qed.

Lemma unit_sum_all_ones {A} (f : A → option nat) (val : nat → Z) (l : list A) :
  (∀ a, a ∈ l → ∃ y, f a = Some y ∧ val y = 1) →
  foldr (λ a acc, from_option val 0 (f a) + acc) 0 l = Z.of_nat (length l).
Proof.
  induction l as [|a l IH]; intros Hone; [done |].
  cbn [foldr length]. destruct (Hone a) as (y & -> & Hy); [by left |].
  simpl. rewrite IH, Hy; [lia |]. intros a' Ha'. apply Hone. by right.
Qed.

(** C9. For each listed site [j] the model of either builder contains a
    constraint with left-hand side the sum of one unit term [y[i,j]] per
    entry of the household list, sense [<=] and right-hand side
    [len(households) * x[j]]: it holds exactly when the number of households
    given to [j] is at most the household count times [x[j]].  The bound is
    never tighter than required: with [j] open every 0/1 assignment
    satisfies it, and when every listed household is given to [j] both sides
    equal the household count. *)
Theorem linking_bound_admits_all_households {F} (data : Data F) (m : gp.Model)
    (j : string) :
  generate_gurobipy_model data = Ok m ∨ build_model data = Ok m →
  j ∈ all_hospitals data →
  ∃ c ts xj,
    c ∈ gp.constrs m
    ∧ open_vars data !! j = Some xj
    ∧ Forall2 (λ i t, ∃ yij, assign_vars data !! (i, j) = Some yij ∧ t = (1, yij))
        (households data) ts
    ∧ gp.c_lhs c = {| gp.terms := ts; gp.constant := 0 |}
    ∧ gp.c_sense c = gp.LESS_EQUAL
    ∧ gp.c_rhs c = {| gp.terms := [(Z.of_nat (length (households data)), xj)];
                      gp.constant := 0 |}
    ∧ (∀ val : nat → Z,
         gp.holds val c = true
         ↔ assigned_to data val j ≤ Z.of_nat (length (households data)) * val xj)
    ∧ (∀ val : nat → Z,
         val xj = 1 →
         (∀ i yij, assign_vars data !! (i, j) = Some yij → val yij = 0 ∨ val yij = 1) →
         gp.holds val c = true)
    ∧ (∀ val : nat → Z,
         val xj = 1 →
         (∀ i yij, i ∈ households data → assign_vars data !! (i, j) = Some yij →
                   val yij = 1) →
         assigned_to data val j = Z.of_nat (length (households data))
         ∧ gp.holds val c = true).
Proof.
  intros Hm Hj.
  assert (∃ name fam, formulation name data fam = Ok m) as (name & fam & Hf).
  { destruct Hm as [Hm | Hm].
    - rewrite generate_gurobipy_model_eq in Hm. eauto.
    - rewrite build_model_eq in Hm. eauto. }
  apply formulation_Ok in Hf
    as (obj & c1 & c2 & c3 & c4 & c5 & _ & _ & _ & H3 & _ & _ & ->).
  apply family_linking_Ok in H3 as [_ H3].
  destruct (H3 j Hj) as (c & Hc & ts & xj & Hx & Hts & ->).
  assert (Hholds : ∀ val : nat → Z,
    gp.holds val (c_linking j ts (length (households data)) xj) = true
    ↔ assigned_to data val j ≤ Z.of_nat (length (households data)) * val xj).
  { intros val. unfold gp.holds, c_linking. cbn [gp.c_sense gp.c_lhs gp.c_rhs].
    rewrite Z.leb_le. unfold gp.quicksum.
    rewrite (eval_unit_terms (λ i, assign_vars data !! (i, j)) val _ ts Hts).
    unfold gp.scale, gp.eval, assigned_to. simpl. by rewrite Z.add_0_r. }
  exists (c_linking j ts (length (households data)) xj), ts, xj.
  split_and!; [| done.. | | |].
  - cbn [gp.constrs]. rewrite !elem_of_app. auto.
  - exact Hholds.
  - intros val Hxj Hbin. apply Hholds. rewrite Hxj, Z.mul_1_r.
    apply (unit_sum_le_length (λ i, assign_vars data !! (i, j))). eauto.
  - intros val Hxj Hall.
    assert (assigned_to data val j = Z.of_nat (length (households data))) as Hsum.
    { apply (unit_sum_all_ones (λ i, assign_vars data !! (i, j))). intros i Hi.
      destruct (assign_vars_in data i j Hi Hj) as (yij & Hy & _). eauto. }
    split; [done |]. apply Hholds. rewrite Hsum, Hxj. lia.
Qed.

Lemma linking_bound_admits_all_households_witness :
  ∃ m, generate_gurobipy_model example_data = Ok m
    ∧ ∃ c ts xj,
        c ∈ gp.constrs m
        ∧ open_vars example_data !! "EJ1" = Some xj
        ∧ Forall2 (λ i t, ∃ yij, assign_vars example_data !! (i, "EJ1") = Some yij
                                 ∧ t = (1, yij))
            (households example_data) ts
        ∧ gp.c_lhs c = {| gp.terms := ts; gp.constant := 0 |}
        ∧ gp.c_sense c = gp.LESS_EQUAL
        ∧ gp.c_rhs c = {| gp.terms := [(Z.of_nat (length (households example_data)), xj)];
                          gp.constant := 0 |}
        ∧ (∀ val : nat → Z,
             gp.holds val c = true
             ↔ assigned_to example_data val "EJ1"
               ≤ Z.of_nat (length (households example_data)) * val xj)
        ∧ (∀ val : nat → Z,
             val xj = 1 →
             (∀ i yij, assign_vars example_data !! (i, "EJ1") = Some yij →
                       val yij = 0 ∨ val yij = 1) →
             gp.holds val c = true)
        ∧ (∀ val : nat → Z,
             val xj = 1 →
             (∀ i yij, i ∈ households example_data →
                       assign_vars example_data !! (i, "EJ1") = Some yij → val yij = 1) →
             assigned_to example_data val "EJ1"
             = Z.of_nat (length (households example_data))
             ∧ gp.holds val c = true).
Proof.
  eexists. split; [vm_compute; reflexivity |].
  apply (linking_bound_admits_all_households example_data _ "EJ1" (or_introl eq_refl)).
  simpl. apply elem_of_cons. by left.
Defined.

(** ** What the builders read *)

(** C10. The formulation depends only on the id lists, [population],
    [distance_indicators] and [max_new_hospitals]: two instances that agree
    on these, whatever their [travel_distances] and [max_travel_distance],
    are given identical results (model or error) by the dense builder and by
    the sparse-lazy builder. *)
Theorem builders_ignore_travel_distances {F} (d1 d2 : Data F) :
  households d1 = households d2 →
  existing_hospitals d1 = existing_hospitals d2 →
  candidate_hospitals d1 = candidate_hospitals d2 →
  all_hospitals d1 = all_hospitals d2 →
  population d1 = population d2 →
  distance_indicators d1 = distance_indicators d2 →
  max_new_hospitals d1 = max_new_hospitals d2 →
  generate_gurobipy_model d1 = generate_gurobipy_model d2
  ∧ build_model d1 = build_model d2.
Proof.
  destruct d1 as [hs1 ex1 ca1 al1 pop1 td1 ind1 S1 p1].
  destruct d2 as [hs2 ex2 ca2 al2 pop2 td2 ind2 S2 p2].
  cbn [households existing_hospitals candidate_hospitals all_hospitals population
       distance_indicators max_new_hospitals].
  intros -> -> -> -> -> -> ->. split; reflexivity.
Qed.

Lemma builders_ignore_travel_distances_witness :
  generate_gurobipy_model example_data = generate_gurobipy_model example_data_far
  ∧ build_model example_data = build_model example_data_far.
Proof.
  apply builders_ignore_travel_distances; reflexivity.
Defined.

(** ** Missing data *)

Lemma coverage_objective_raises hs sites pop y :
  raises (coverage_objective hs sites pop y)
  ↔ ∃ i j, i ∈ hs ∧ j ∈ sites
           ∧ raises (p ← getitem pop i; v ← getitem2 y i j; Ok [(p, v)]).
Proof.
  unfold coverage_objective. rewrite bind_raises, collect2_raises.
  split; [intros [H | (ts & _ & [])]; done | auto].
Qed.


Lemma bind_Raise {A B} (r : result A) (f : A → result B) e :
  (r ≫= f) = Raise e ↔ r = Raise e ∨ ∃ a, r = Ok a ∧ f a = Raise e.
Proof.
  destruct r as [a|e']; cbn [mbind result_bind]; split.
  - intros Hf. right. eauto.
  - by intros [[=] | (a' & [= <-] & ?)].
  - intros [= ->]. by left.
  - intros [[= ->] | (a' & [=] & _)]. done.
Qed.

Lemma collect_Raise {A B} (l : list A) (gen : A → result (list B)) e :
  collect l gen = Raise e → ∃ a, a ∈ l ∧ gen a = Raise e.
Proof.
  induction l as [|a l IH]; simpl; [done |].
  intros [Hg | (bs & _ & [Hc | (rest & _ & [=])]%bind_Raise)]%bind_Raise.
  - exists a. split; [by left | done].
  - destruct (IH Hc) as (a' & ? & ?). exists a'. split; [by right | done].
Qed.

Lemma getitem_Raise {V} (d : gmap string V) k e :
  getitem d k = Raise e → e = KeyError k ∧ d !! k = None.
Proof. unfold getitem. destruct (d !! k); [done |]. by intros [= <-]. Qed.

Lemma unit_assign_terms_Ok {F} (data : Data F) i j :
  i ∈ households data → j ∈ all_hospitals data →
  ∃ yij, getitem2 (assign_vars data) i j = Ok yij.
Proof.
  intros Hi Hj. destruct (assign_vars_in data i j Hi Hj) as (yij & Hy%getitem2_Ok & _).
  eauto.
Qed.

(** The first four families and the objective raise nothing but [KeyError]. *)
Lemma shared_stages_KeyError {F} (data : Data F) e :
  coverage_objective (households data) (all_hospitals data) (population data)
    (assign_vars data) = Raise e
  ∨ family_existing data = Raise e ∨ family_budget data = Raise e
  ∨ family_linking data = Raise e ∨ family_single data = Raise e →
  ∃ k, e = KeyError k.
Proof.
  intros [Ho | [H1 | [H2 | [H3 | H4]]]].
  - unfold coverage_objective in Ho.
    apply bind_Raise in Ho as [Ho | (ts & _ & [=])].
    apply collect_Raise in Ho as (i & Hi & Ho).
    apply collect_Raise in Ho as (j & Hj & Ho).
    destruct (unit_assign_terms_Ok data i j Hi Hj) as [yij Hy].
    apply bind_Raise in Ho as [[-> _]%getitem_Raise | (pi & _ & Ho)]; [eauto |].
    rewrite Hy in Ho. done.
  - unfold family_existing in H1. apply collect_Raise in H1 as (j & _ & H1).
    apply bind_Raise in H1 as [[-> _]%getitem_Raise | (xj & _ & [=])]. eauto.
  - unfold family_budget in H2. apply bind_Raise in H2 as [H2 | (ts & _ & [=])].
    apply collect_Raise in H2 as (j & _ & H2).
    apply bind_Raise in H2 as [[-> _]%getitem_Raise | (xj & _ & [=])]. eauto.
  - unfold family_linking in H3. apply collect_Raise in H3 as (j & Hj & H3).
    apply bind_Raise in H3 as [H3 | (ts & _ & H3)].
    + apply collect_Raise in H3 as (i & Hi & H3).
      destruct (unit_assign_terms_Ok data i j Hi Hj) as [yij Hy].
      rewrite Hy in H3. done.
    + apply bind_Raise in H3 as [[-> _]%getitem_Raise | (xj & _ & [=])]. eauto.
  - unfold family_single in H4. apply collect_Raise in H4 as (i & Hi & H4).
    apply bind_Raise in H4 as [H4 | (ts & _ & [=])].
    apply collect_Raise in H4 as (j & Hj & H4).
    destruct (unit_assign_terms_Ok data i j Hi Hj) as [yij Hy].
    rewrite Hy in H4. done.
Qed.

Lemma formulation_Raise {F} name (data : Data F) fam e :
  formulation name data fam = Raise e →
  (coverage_objective (households data) (all_hospitals data) (population data)
     (assign_vars data) = Raise e
   ∨ family_existing data = Raise e ∨ family_budget data = Raise e
   ∨ family_linking data = Raise e ∨ family_single data = Raise e)
  ∨ fam = Raise e.
Proof.
  unfold formulation.
  destruct (coverage_objective _ _ _ _); cbn [mbind result_bind];
    [| intros [= ->]; auto].
  destruct (family_existing data); cbn [mbind result_bind]; [| intros [= ->]; auto 6].
  destruct (family_budget data); cbn [mbind result_bind]; [| intros [= ->]; auto 6].
  destruct (family_linking data); cbn [mbind result_bind]; [| intros [= ->]; auto 7].
  destruct (family_single data); cbn [mbind result_bind]; [| intros [= ->]; auto 8].
  destruct fam; cbn [mbind result_bind]; [done |]. intros [= ->]. by right.
Qed.

Lemma family_distance_dense_Raise {F} (data : Data F) e :
  family_distance_dense data = Raise e →
  ∃ i j, i ∈ households data ∧ j ∈ all_hospitals data
    ∧ ((e = KeyError i ∧ distance_indicators data !! i = None)
       ∨ (e = KeyError j
          ∧ ∃ row, distance_indicators data !! i = Some row ∧ row !! j = None)).
Proof.
  unfold family_distance_dense. intros (i & Hi & Hr)%collect_Raise.
  apply collect_Raise in Hr as (j & Hj & Hr).
  exists i, j. split_and!; [done.. |].
  destruct (unit_assign_terms_Ok data i j Hi Hj) as [yij Hy].
  rewrite Hy in Hr. cbn [mbind result_bind] in Hr.
  apply bind_Raise in Hr as [[-> ?]%getitem_Raise | (row & Hrow%getitem_Ok & Hr)];
    [by left |].
  apply bind_Raise in Hr as [[-> ?]%getitem_Raise | (d & _ & [=])]. right. eauto.
Qed.

Lemma family_distance_lazy_Raise {F} (data : Data F) e :
  family_distance_lazy data = Raise e →
  ∃ i j, i ∈ households data ∧ j ∈ all_hospitals data
    ∧ ((e = KeyError i ∧ distance_indicators data !! i = None)
       ∨ (e = KeyError j
          ∧ ∃ row, distance_indicators data !! i = Some row ∧ row !! j = None)
       ∨ (e = TypeError "lazy"
          ∧ ∃ row, distance_indicators data !! i = Some row ∧ row !! j = Some 0)).
Proof.
  unfold family_distance_lazy. intros (i & Hi & Hr)%collect_Raise.
  apply collect_Raise in Hr as (j & Hj & Hr).
  exists i, j. split_and!; [done.. |].
  apply bind_Raise in Hr as [[-> ?]%getitem_Raise | (row & Hrow%getitem_Ok & Hr)];
    [by left |].
  apply bind_Raise in Hr as [[-> ?]%getitem_Raise | (d & Hd%getitem_Ok & Hr)];
    [right; left; eauto |].
  destruct (d =? 0) eqn:Hd0; [| done]. apply Z.eqb_eq in Hd0 as ->.
  destruct (unit_assign_terms_Ok data i j Hi Hj) as [yij Hy].
  rewrite Hy in Hr. cbn [mbind result_bind] in Hr. injection Hr as <-.
  right; right. eauto.
Qed.

Lemma dense_Raise_KeyError {F} (data : Data F) e :
  generate_gurobipy_model data = Raise e → ∃ k, e = KeyError k.
Proof.
  rewrite generate_gurobipy_model_eq.
  intros [Hs | Hd]%formulation_Raise; [by eapply shared_stages_KeyError |].
  apply family_distance_dense_Raise in Hd
    as (i & j & _ & _ & [[-> _] | [-> _]]); eauto.
Qed.

Lemma sparse_Raise_kind {F} (data : Data F) e :
  build_model data = Raise e → e = TypeError "lazy" ∨ ∃ k, e = KeyError k.
Proof.
  rewrite build_model_eq.
  intros [Hs | Hd]%formulation_Raise; [right; by eapply shared_stages_KeyError |].
  apply family_distance_lazy_Raise in Hd
    as (i & j & _ & _ & [[-> _] | [[-> _] | [-> _]]]); eauto.
Qed.

Lemma raises_Raise {A} (r : result A) : raises r ↔ ∃ e, r = Raise e.
Proof. destruct r; simpl; split; eauto; [done | by intros [? [=]]]. Qed.





(** ** The solve report *)

(** C5, as the code has it.  The report distinguishes two cases only.  For
    engine status 2 it prints "Status: Optimal" followed by the objective, the
    solve time and the node count.  For every other status, infeasible
    included, it prints the numeric status code and the solve time, reads no
    objective value and does not raise. *)
Theorem report_is_two_way {T} (fmt : Formats T) (model : Solved T) (t0 t1 : T) :
  (Status model ≠ 2 →
   main_report fmt model t0 t1
   = Ok [str_mul "-" 60; ""; "RESULTS"; str_mul "=" 60;
         "Status: " +:+ pretty (Status model);
         "Solve time: " +:+ fmt_2f fmt (elapsed fmt t1 t0) +:+ " seconds";
         ""])
  ∧ (Status model = 2 → ∀ obj, ObjVal model = Ok obj →
     main_report fmt model t0 t1
     = Ok [str_mul "-" 60; ""; "RESULTS"; str_mul "=" 60;
           "Status: Optimal";
           "Objective: " +:+ fmt_grouped_0f fmt obj +:+ " (people covered)";
           "Solve time: " +:+ fmt_2f fmt (elapsed fmt t1 t0) +:+ " seconds";
           "Nodes explored: " +:+ fmt_int_grouped fmt (NodeCount model);
           ""]).
Proof.
  unfold main_report. split.
  - intros Hst. apply Z.eqb_neq in Hst. by rewrite Hst.
  - intros Hst obj Hobj. apply Z.eqb_eq in Hst. by rewrite Hst, Hobj.
Qed.

Lemma report_is_two_way_witness :
  main_report plain_formats (no_solution 3) 10 25
  = Ok [str_mul "-" 60; ""; "RESULTS"; str_mul "=" 60;
        "Status: 3"; "Solve time: 15 seconds"; ""].
Proof.
  refine (proj1 (report_is_two_way plain_formats (no_solution 3) 10 25) _).
  simpl. lia.
Defined.

(** The claim as written fails: an infeasible model (engine status 3) is
    reported by its raw code, like every other non-optimal status, and the
    status lines of five engine codes are pairwise different, so they are
    not the image of a four-valued classification. *)
Lemma report_is_not_taxonomy :
  (∃ lines, main_report plain_formats (no_solution 3) 10 25 = Ok lines
            ∧ status_line lines = Some "Status: 3")
  ∧ ¬ reports_taxonomy plain_formats.
Proof.
  split.
  - eexists. split; [vm_compute; reflexivity | reflexivity].
  - intros (classify & render & Hall).
    assert (Hline : ∀ st, st ≠ 2 →
              Some ("Status: " +:+ pretty st) = Some (render (classify st))).
    { intros st Hst.
      pose proof (Hall (no_solution st) 0 0 _
                    (proj1 (report_is_two_way plain_formats (no_solution st) 0 0) Hst))
        as Hl.
      exact Hl. }
    pose proof (Hline 1 ltac:(lia)) as H1. pose proof (Hline 3 ltac:(lia)) as H3.
    pose proof (Hline 4 ltac:(lia)) as H4. pose proof (Hline 5 ltac:(lia)) as H5.
    pose proof (Hline 9 ltac:(lia)) as H9.
    vm_compute in H1, H3, H4, H5, H9.
    destruct (classify 1), (classify 3), (classify 4), (classify 5), (classify 9);
      congruence.
Qed.

(** ** Loops with invariants *)

(** A loop whose body preserves an invariant indexed by the processed
    prefix terminates normally, with the invariant at the whole list. *)
Lemma for_each_total {A S} (I : list A → S → Prop) (l : list A)
    (body : A → S → result S) (s0 : S) :
  I [] s0 →
  (∀ pre a s, a ∈ l → I pre s → ∃ s', body a s = Ok s' ∧ I (pre ++ [a]) s') →
  ∃ s', for_each l body s0 = Ok s' ∧ I l s'.
Proof.
  intros H0 Hstep.
  cut (∀ pre s, I pre s → (∀ a, a ∈ l → a ∈ l) →
         ∀ rest, (∀ a, a ∈ rest → a ∈ l) →
         ∃ s', for_each rest body s = Ok s' ∧ I (pre ++ rest) s').
  { intros Hcut. apply (Hcut [] s0 H0); auto. }
  intros pre s HI _ rest. revert pre s HI.
  induction rest as [|a rest IH]; intros pre s HI Hsub; simpl.
  - exists s. by rewrite app_nil_r.
  - destruct (Hstep pre a s) as (s1 & Hb & HI1); [apply Hsub; by left | done |].
    rewrite Hb. simpl.
    destruct (IH (pre ++ [a]) s1 HI1) as (s' & Hf & HI').
    { intros a' Ha'. apply Hsub. by right. }
    exists s'. split; [done |]. by rewrite <- app_assoc in HI'.
Qed.

Lemma for_each_Ok_inv {A S} (I : list A → S → Prop) (l : list A)
    (body : A → S → result S) (s0 s' : S) :
  I [] s0 →
  (∀ pre a s, a ∈ l → I pre s → ∃ s', body a s = Ok s' ∧ I (pre ++ [a]) s') →
  for_each l body s0 = Ok s' → I l s'.
Proof.
  intros H0 Hstep Hf.
  destruct (for_each_total I l body s0 H0 Hstep) as (s'' & Hf' & HI).
  congruence.
Qed.

Lemma elem_of_enumerate {A} (l : list A) i a :
  (i, a) ∈ imap pair l ↔ l !! i = Some a.
Proof.
  rewrite elem_of_lookup_imap. split.
  - by intros (i' & a' & [= <- <-] & ?).
  - eauto.
Qed.

(** ** The instance generator *)

Section GeneratorFacts.
Context `{Lib}.

Lemma np_random_uniform_rows_spec low high n s :
  length (np_random_uniform_rows low high n s).1 = n
  ∧ ∀ c, c ∈ (np_random_uniform_rows low high n s).1 →
         ∃ s1 s2, c = ((np_random_uniform low high s1).1,
                       (np_random_uniform low high s2).1).
Proof.
  revert s. induction n as [|n IH]; intros s; simpl.
  - split; [done | by intros c ?%elem_of_nil].
  - destruct (np_random_uniform low high s) as [a s1] eqn:Ha.
    destruct (np_random_uniform low high s1) as [b s2] eqn:Hb.
    destruct (np_random_uniform_rows low high n s2) as [rows s3] eqn:Hr.
    destruct (IH s2) as [Hlen Hin]. rewrite Hr in Hlen, Hin. simpl in *.
    split; [by rewrite Hlen |].
    intros c [-> | Hc]%elem_of_cons; [| by apply Hin].
    exists s, s1. by rewrite Ha, Hb.
Qed.

Lemma draw_population_total hs s :
  ∃ pop s', draw_population hs s = Ok (pop, s').
Proof.
  unfold draw_population.
  match goal with
  | |- ∃ pop s', for_each ?l ?b ?s0 = _ =>
      destruct (for_each_total (λ _ _, True) l b s0) as ([pop s'] & Hf & _)
  end.
  - done.
  - intros pre h [pop s0] _ _. destruct (np_random_randint 50 500 s0). eauto.
  - eauto.
Qed.

Lemma length_ids prefix n : length (ids prefix n) = n.
Proof. unfold ids. by rewrite length_fmap, length_seq. Qed.

Lemma index_Ok {A} (a : list A) i :
  (i < length a)%nat → ∃ v, index a i = Ok v ∧ v ∈ a.
Proof.
  intros Hi. destruct (lookup_lt_is_Some_2 a i Hi) as [v Hv].
  exists v. unfold index. rewrite Hv. split; [done |].
  apply list_elem_of_lookup. eauto.
Qed.

(** One household: the inner loop fills the row of [h] and touches no other. *)
Lemma distance_row_spec i h sites hcs scs td s :
  (i < length hcs)%nat → length scs = length sites →
  (∀ c, c ∈ hcs → is_position c) → (∀ c, c ∈ scs → is_position c) →
  all_stored td →
  ∃ td' s',
    for_each (enumerate sites) (λ '(j, hosp) '(travel_distances, s),
      hc ← index hcs i;
      sc ← index scs j;
      let dist := norm (vsub hc sc) in
      let '(u, s) := np_random_uniform (of_int (-10)) (of_int 10) s in
      row ← getitem travel_distances h;
      Ok (<[h := <[hosp := round2 (fadd dist u)]> row]> travel_distances, s))
      (<[h := ∅]> td, s) = Ok (td', s')
    ∧ (∃ row, td' !! h = Some row ∧ ∀ st, st ∈ sites → is_Some (row !! st))
    ∧ (∀ h', h' ≠ h → td' !! h' = td !! h')
    ∧ all_stored td'.
Proof.
  intros Hi Hlen Hpos_h Hpos_s Hall.
  destruct (index_Ok hcs i Hi) as (hc & Hhc & Hhc_in).
  match goal with
  | |- ∃ td' s', for_each ?l ?b ?s0 = _ ∧ _ =>
      destruct (for_each_total
        (λ pre (st : gmap string (gmap string float) * np_state),
           (∃ row, st.1 !! h = Some row
                   ∧ ∀ js : nat * string, js ∈ pre → is_Some (row !! js.2))
           ∧ (∀ h', h' ≠ h → st.1 !! h' = td !! h')
           ∧ all_stored st.1) l b s0) as ([td' s'] & Hf & HI)
  end.
  - simpl. split_and!.
    + exists ∅. rewrite lookup_insert_eq. split; [done |].
      by intros js ?%elem_of_nil.
    + intros h' Hne. by rewrite lookup_insert_ne.
    + intros h' row st v. rewrite lookup_insert. case_decide.
      * intros [= <-]. by rewrite lookup_empty.
      * apply Hall.
  - intros pre [j hosp] [td0 s0] Hin ((row & Hrow & Hpre) & Hother & Hst).
    simpl in Hrow, Hother, Hst.
    apply elem_of_enumerate in Hin.
    destruct (index_Ok scs j) as (sc & Hsc & Hsc_in).
    { rewrite Hlen. by eapply lookup_lt_Some. }
    rewrite Hhc, Hsc. cbn [mbind result_bind].
    destruct (np_random_uniform (of_int (-10)) (of_int 10) s0) as [u s1] eqn:Hu.
    apply getitem_Ok in Hrow. rewrite Hrow. cbn [mbind result_bind].
    apply getitem_Ok in Hrow.
    eexists. split; [done |]. simpl. split_and!.
    + eexists. rewrite lookup_insert_eq. split; [done |].
      intros js [Hjs | ->%list_elem_of_singleton]%elem_of_app.
      * rewrite lookup_insert. case_decide; [done | by apply Hpre].
      * simpl. by rewrite lookup_insert_eq.
    + intros h' Hne. rewrite lookup_insert_ne by done. by apply Hother.
    + intros h' row' st v. rewrite lookup_insert. case_decide.
      * intros [= <-]. rewrite lookup_insert. case_decide.
        -- intros [= <-]. exists hc, sc, u. split_and!; [auto.. | | done].
           exists s0. by rewrite Hu.
        -- by apply (Hst h).
      * apply Hst.
  - exists td', s'. destruct HI as ((row & Hrow & Hpre) & Hother & Hst).
    split_and!; [done | | done..].
    exists row. split; [done |]. intros st (j & Hj)%list_elem_of_lookup.
    apply (Hpre (j, st)). by apply elem_of_enumerate.
Qed.
Lemma compute_distances_spec hs sites hcs scs s :
  length hcs = length hs → length scs = length sites →
  (∀ c, c ∈ hcs → is_position c) → (∀ c, c ∈ scs → is_position c) →
  ∃ td s', compute_distances hs sites hcs scs s = Ok (td, s')
    ∧ rows_complete hs sites td ∧ all_stored td.
Proof.
  intros Hlh Hls Hpos_h Hpos_s. unfold compute_distances.
  match goal with
  | |- ∃ td s', for_each ?l ?b ?s0 = _ ∧ _ =>
      destruct (for_each_total
        (λ pre (st : gmap string (gmap string float) * np_state),
           (∀ ih : nat * string, ih ∈ pre →
              ∃ row, st.1 !! ih.2 = Some row ∧ ∀ x, x ∈ sites → is_Some (row !! x))
           ∧ all_stored st.1) l b s0) as ([td s'] & Hf & Hrows & Hst)
  end.
  - simpl. split; [by intros ih ?%elem_of_nil |].
    intros h row st v. by rewrite lookup_empty.
  - intros pre [i h] [td0 s0] Hin [Hrows Hst]. simpl in Hrows, Hst.
    apply elem_of_enumerate in Hin.
    destruct (distance_row_spec i h sites hcs scs td0 s0)
      as (td' & s' & Hf & (row & Hrow & Hfull) & Hother & Hst');
      [| done | done | done | done |].
    { rewrite Hlh. by eapply lookup_lt_Some. }
    exists (td', s'). split; [exact Hf |]. simpl. split; [| done].
    intros [i' h'] [Hpre | ->%list_elem_of_singleton]%elem_of_app; simpl.
    + destruct (decide (h' = h)) as [-> | Hne]; [eauto |].
      rewrite (Hother h' Hne). apply (Hrows (i', h') Hpre).
    + eauto.
  - exists td, s'. split; [exact Hf |]. simpl in *. split; [| done].
    intros h st (i & Hi)%list_elem_of_lookup Hst'.
    destruct (Hrows (i, h)) as (row & Hrow & Hfull); [by apply elem_of_enumerate |].
    destruct (Hfull st Hst') as [v Hv]. eauto.
Qed.
Lemma indicator_row_spec h sites (td : gmap string (gmap string float)) S drow ind0 :
  td !! h = Some drow → (∀ st, st ∈ sites → is_Some (drow !! st)) →
  all_flags ind0 →
  ∃ ind',
    for_each sites (λ hosp distance_indicators,
      drow ← getitem td h;
      d ← getitem drow hosp;
      row ← getitem distance_indicators h;
      Ok (<[h := <[hosp := if fle d S then 1 else 0]> row]> distance_indicators))
      (<[h := ∅]> ind0) = Ok ind'
    ∧ (∃ row, ind' !! h = Some row
         ∧ ∀ st, st ∈ sites →
             ∃ d, drow !! st = Some d ∧ row !! st = Some (if fle d S then 1 else 0))
    ∧ (∀ h', h' ≠ h → ind' !! h' = ind0 !! h')
    ∧ all_flags ind'.
Proof.
  intros Hdrow Hfull Hflags.
  match goal with
  | |- ∃ ind', for_each ?l ?b ?s0 = _ ∧ _ =>
      destruct (for_each_total
        (λ pre (ind : gmap string (gmap string Z)),
           (∃ row, ind !! h = Some row
              ∧ ∀ st, st ∈ pre →
                  ∃ d, drow !! st = Some d
                       ∧ row !! st = Some (if fle d S then 1 else 0))
           ∧ (∀ h', h' ≠ h → ind !! h' = ind0 !! h')
           ∧ all_flags ind) l b s0) as (ind' & Hf & HI)
  end.
  - split_and!.
    + exists ∅. rewrite lookup_insert_eq. split; [done |]. by intros st ?%elem_of_nil.
    + intros h' Hne. by rewrite lookup_insert_ne.
    + intros h' row st v. rewrite lookup_insert. case_decide.
      * intros [= <-]. by rewrite lookup_empty.
      * apply Hflags.
  - intros pre hosp ind Hin ((row & Hrow & Hpre) & Hother & Hfl).
    destruct (Hfull hosp Hin) as [d Hd].
    apply getitem_Ok in Hdrow, Hd, Hrow. rewrite Hdrow. cbn [mbind result_bind].
    rewrite Hd. cbn [mbind result_bind]. rewrite Hrow. cbn [mbind result_bind].
    apply getitem_Ok in Hdrow, Hd, Hrow.
    eexists. split; [done |]. split_and!.
    + eexists. rewrite lookup_insert_eq. split; [done |].
      intros st [Hst | ->%list_elem_of_singleton]%elem_of_app.
      * rewrite lookup_insert. case_decide as Heq; [| by apply Hpre].
        subst st. eauto.
      * rewrite lookup_insert_eq. eauto.
    + intros h' Hne. rewrite lookup_insert_ne by done. by apply Hother.
    + intros h' row' st v. rewrite lookup_insert. case_decide.
      * intros [= <-]. rewrite lookup_insert. case_decide.
        -- intros [= <-]. destruct (fle d S); auto.
        -- by apply (Hfl h).
      * apply Hfl.
  - exists ind'. by split.
Qed.

Lemma derive_indicators_spec hs sites (td : gmap string (gmap string float)) S :
  rows_complete hs sites td →
  ∃ ind, derive_indicators hs sites td S = Ok ind
    ∧ (∀ h st, h ∈ hs → st ∈ sites →
         ∃ drow d row, td !! h = Some drow ∧ drow !! st = Some d
                       ∧ ind !! h = Some row
                       ∧ row !! st = Some (if fle d S then 1 else 0))
    ∧ all_flags ind.
Proof.
  intros Hcomplete. unfold derive_indicators.
  destruct (decide (sites = [])) as [-> | Hne].
  { match goal with
    | |- ∃ ind, for_each ?l ?b ?s0 = _ ∧ _ =>
        destruct (for_each_total
          (λ _ (ind : gmap string (gmap string Z)), all_flags ind) l b s0)
          as (ind & Hf & HI)
    end.
    - intros h row st v. by rewrite lookup_empty.
    - intros pre h ind _ Hfl. simpl. eexists. split; [done |].
      intros h' row st v. rewrite lookup_insert. case_decide.
      + intros [= <-]. by rewrite lookup_empty.
      + apply Hfl.
    - exists ind. split_and!; [done | | done]. by intros h st _ ?%elem_of_nil. }
  assert (∃ s0, s0 ∈ sites) as [s0 Hs0].
  { destruct sites as [|s0 ?]; [done | exists s0; by left]. }
  match goal with
  | |- ∃ ind, for_each ?l ?b ?s0 = _ ∧ _ =>
      destruct (for_each_total
        (λ pre (ind : gmap string (gmap string Z)),
           (∀ h, h ∈ pre → ∀ st, st ∈ sites →
              ∃ drow d row, td !! h = Some drow ∧ drow !! st = Some d
                            ∧ ind !! h = Some row
                            ∧ row !! st = Some (if fle d S then 1 else 0))
           ∧ all_flags ind) l b s0) as (ind & Hf & HI)
  end.
  - split; [by intros h ?%elem_of_nil |].
    intros h row st v. by rewrite lookup_empty.
  - intros pre h ind Hin [Hpre Hfl].
    assert (∃ drow, td !! h = Some drow ∧ ∀ st, st ∈ sites → is_Some (drow !! st))
      as (drow & Hdrow & Hfull).
    { destruct (Hcomplete h s0 Hin Hs0) as (drow & v & Hdrow & _).
      exists drow. split; [done |]. intros st Hst.
      destruct (Hcomplete h st Hin Hst) as (drow' & v' & Hdrow' & Hv').
      assert (drow' = drow) as -> by congruence. eauto. }
    destruct (indicator_row_spec h sites td S drow ind Hdrow Hfull Hfl)
      as (ind' & Hf & (row & Hrow & Hvals) & Hother & Hfl').
    exists ind'. split; [exact Hf |]. split; [| done].
    intros h' [Hh' | ->%list_elem_of_singleton]%elem_of_app st Hst.
    + destruct (decide (h' = h)) as [-> | Hne0].
      * destruct (Hvals st Hst) as (d & Hd & Hv). eauto 8.
      * rewrite (Hother h' Hne0). by apply Hpre.
    + destruct (Hvals st Hst) as (d & Hd & Hv). eauto 8.
  - exists ind. destruct HI as [Hpre Hfl].
    split_and!; [done | | done]. intros h st Hh Hst. by apply Hpre.
Qed.
(** The generator always returns, and what it returns is fixed by the
    seed and the sizes alone. *)
Lemma generate_data_sized_spec n m k seed :
  ∃ d w',
    (∀ w, generate_data_sized n m k seed w = Ok (d, w'))
    ∧ households d = ids "H" n
    ∧ all_hospitals d = ids "EJ" m ++ ids "CJ" k
    ∧ existing_hospitals d = ids "EJ" m
    ∧ candidate_hospitals d = ids "CJ" k
    ∧ max_travel_distance d
      = round2 (random_uniform (of_int 8) (of_int 15) (random_seed seed)).1
    ∧ max_new_hospitals d
      = Z.min (random_randint 5 (Z.of_nat k)
                 (random_uniform (of_int 8) (of_int 15) (random_seed seed)).2).1
              (Z.of_nat k)
    ∧ rows_complete (households d) (all_hospitals d) (travel_distances d)
    ∧ all_stored (travel_distances d)
    ∧ derive_indicators (households d) (all_hospitals d) (travel_distances d)
        (max_travel_distance d) = Ok (distance_indicators d)
    ∧ all_flags (distance_indicators d).
Proof.
  unfold generate_data_sized. cbn [py_rng np_rng].
  destruct (random_uniform (of_int 8) (of_int 15) (random_seed seed)) as [u py1].
  cbn [fst snd].
  destruct (random_randint 5 (Z.of_nat k) py1) as [r py2] eqn:Hr. cbn [fst snd].
  destruct (np_random_uniform_rows (of_int 0) (of_int 100) n (np_random_seed seed))
    as [hcs np1] eqn:Hhcs.
  destruct (np_random_uniform_rows (of_int 0) (of_int 100) (m + k) np1)
    as [scs np2] eqn:Hscs.
  pose proof (np_random_uniform_rows_spec (of_int 0) (of_int 100) n
                (np_random_seed seed)) as [Hlh Hph].
  pose proof (np_random_uniform_rows_spec (of_int 0) (of_int 100) (m + k) np1)
    as [Hls Hps].
  rewrite Hhcs in Hlh, Hph. rewrite Hscs in Hls, Hps. simpl in Hlh, Hph, Hls, Hps.
  destruct (draw_population_total (ids "H" n) np2) as (pop & np3 & Hpop).
  destruct (compute_distances_spec (ids "H" n) (ids "EJ" m ++ ids "CJ" k) hcs scs np3)
    as (td & np4 & Htd & Hcomplete & Hstored).
  { by rewrite length_ids. }
  { by rewrite length_app, !length_ids. }
  { intros c Hc. destruct (Hph c Hc) as (s1 & s2 & ->). by exists s1, s2. }
  { intros c Hc. destruct (Hps c Hc) as (s1 & s2 & ->). by exists s1, s2. }
  destruct (derive_indicators_spec (ids "H" n) (ids "EJ" m ++ ids "CJ" k) td (round2 u)
              Hcomplete) as (ind & Hind & _ & Hflags).
  eexists. exists {| py_rng := py2; np_rng := np4 |}. split.
  { intros w. rewrite Hpop. cbn [mbind result_bind]. rewrite Htd.
    cbn [mbind result_bind]. rewrite Hind. cbn [mbind result_bind]. reflexivity. }
  cbn [households all_hospitals existing_hospitals candidate_hospitals
       max_travel_distance max_new_hospitals travel_distances distance_indicators].
  split_and!; done.
Qed.
Lemma first_id prefix n : (0 < n)%nat → prefix +:+ "1" ∈ ids prefix n.
Proof.
  intros Hn. unfold ids. apply list_elem_of_fmap. exists 0%nat.
  split; [reflexivity |]. apply elem_of_seq. lia.
Qed.

(** C3. Two invocations with the same seed (and sizes) return the same
    instance -- id lists, populations, distances, indicators, distance
    limit and budget -- whatever state the two generators were left in:
    the call starts by seeding both.  The generator always returns. *)
Theorem generate_data_deterministic (n m k : nat) (seed : Z) (w1 w2 : World) :
  (∃ d w', generate_data_sized n m k seed w1 = Ok (d, w')
           ∧ generate_data_sized n m k seed w2 = Ok (d, w'))
  ∧ (∃ d w', generate_data seed w1 = Ok (d, w') ∧ generate_data seed w2 = Ok (d, w')).
Proof.
  split.
  - destruct (generate_data_sized_spec n m k seed) as (d & w' & Hgen & _). eauto.
  - unfold generate_data.
    destruct (generate_data_sized_spec (Z.to_nat 20000) 15 100 seed)
      as (d & w' & Hgen & _). eauto.
Qed.


(** C8. In every generated instance each listed pair has a stored
    distance and a stored indicator, the indicator being 1 exactly when the
    stored distance is [<=] the stored limit; running the indicator loop
    again on the stored distances and limit gives the stored indicators. *)
Theorem indicators_match_distances (seed : Z) (w : World) :
  ∃ d w', generate_data seed w = Ok (d, w')
    ∧ (∀ h st, h ∈ households d → st ∈ all_hospitals d →
         ∃ drow dist row,
           travel_distances d !! h = Some drow ∧ drow !! st = Some dist
           ∧ distance_indicators d !! h = Some row
           ∧ row !! st = Some (if fle dist (max_travel_distance d) then 1 else 0))
    ∧ derive_indicators (households d) (all_hospitals d) (travel_distances d)
        (max_travel_distance d) = Ok (distance_indicators d).
Proof.
  unfold generate_data.
  destruct (generate_data_sized_spec (Z.to_nat 20000) 15 100 seed)
    as (d & w' & Hgen & _ & _ & _ & _ & _ & _ & Hcomplete & _ & Hind & _).
  exists d, w'. split_and!; [apply Hgen | | done].
  destruct (derive_indicators_spec _ _ _ (max_travel_distance d) Hcomplete)
    as (ind & Hind' & Hpairs & _).
  assert (ind = distance_indicators d) as -> by congruence. exact Hpairs.
Qed.
(** C2, as the code has it.  Every listed pair has a stored distance, and a
    stored distance is [round(norm(position difference) + noise, 2)] with
    the noise drawn from [uniform(-10, 10)]: the rounded sum is stored as it
    is, nothing clips it at zero. *)
Theorem stored_distances_unclipped (seed : Z) (w : World) :
  ∃ d w', generate_data seed w = Ok (d, w')
    ∧ rows_complete (households d) (all_hospitals d) (travel_distances d)
    ∧ ∀ h row st v,
        travel_distances d !! h = Some row → row !! st = Some v →
        ∃ hc sc u, is_position hc ∧ is_position sc ∧ is_noise u
                   ∧ v = round2 (fadd (norm (vsub hc sc)) u).
Proof.
  unfold generate_data.
  destruct (generate_data_sized_spec (Z.to_nat 20000) 15 100 seed)
    as (d & w' & Hgen & _ & _ & _ & _ & _ & _ & Hcomplete & Hstored & _).
  exists d, w'. split_and!; [apply Hgen | done |].
  intros h row st v Hrow Hv. exact (Hstored h row st v Hrow Hv).
Qed.
End GeneratorFacts.

(** ** The generator on the two small libraries *)

Lemma lcg_randint_range (a b s : Z) :
  a ≤ b → a ≤ (random_randint (Lib := lcg_lib) a b s).1 ≤ b.
Proof.
  intros Hab.
  change (a ≤ a + ((1103515245 * s + 12345) `mod` 2147483648) `mod` (b - a + 1) ≤ b).
  pose proof (Z.mod_pos_bound ((1103515245 * s + 12345) `mod` 2147483648) (b - a + 1)
                ltac:(lia)).
  lia.
Qed.


(** The claim as written fails: with the library whose draws are always the
    low end of the range, all positions coincide and every noise term is
    -10, so the distance stored for household H1 and hospital EJ1 is -10.00
    (here [-1000] hundredths), which is negative. *)
Lemma stored_distance_can_be_negative :
  ∃ d w' row v,
    generate_data (H := low_lib) 42 low_world = Ok (d, w')
    ∧ "H1" ∈ households d ∧ "EJ1" ∈ all_hospitals d
    ∧ travel_distances d !! "H1" = Some row ∧ row !! "EJ1" = Some v
    ∧ v = -1000
    ∧ fle (Lib := low_lib) (of_int 0) v = false.
Proof.
  unfold generate_data.
  destruct (generate_data_sized_spec (H := low_lib) (Z.to_nat 20000) 15 100 42)
    as (d & w' & Hgen & Hhs & Hall & _ & _ & _ & _ & Hcomplete & Hstored & _).
  assert (Hh : "H1" ∈ households d).
  { rewrite Hhs. apply (first_id "H"). lia. }
  assert (Hs : "EJ1" ∈ all_hospitals d).
  { rewrite Hall. apply elem_of_app. left. apply (first_id "EJ"). lia. }
  destruct (Hcomplete "H1" "EJ1" Hh Hs) as (row & v & Hrow & Hv).
  assert (v = -1000) as ->.
  { destruct (Hstored "H1" row "EJ1" v Hrow Hv)
      as (hc & sc & u & (s1 & s2 & ->) & (s3 & s4 & ->) & (s5 & ->) & ->).
    reflexivity. }
  exists d, w', row, (-1000). split_and!; [apply Hgen | done..].
Qed.

(* ================================================================== *)
(** * Further properties of the builders *)

(** ** Sizes of the models *)

Lemma collect_length {A B} (w : A → nat) (l : list A) (gen : A → result (list B)) bs :
  collect l gen = Ok bs →
  (∀ a cs, a ∈ l → gen a = Ok cs → length cs = w a) →
  length bs = sum_list_with w l.
Proof.
  revert bs. induction l as [|a l IH]; intros bs; simpl.
  - by intros [= <-].
  - intros (cs & Hcs & (rest & Hrest & [= <-])%bind_Ok)%bind_Ok Hw.
    rewrite length_app. f_equal.
    + apply Hw; [by left | done].
    + apply IH; [done |]. intros a' cs' Ha'. apply Hw. by right.
Qed.

Lemma sum_list_with_const {A} (l : list A) (k : nat) :
  sum_list_with (λ _, k) l = (length l * k)%nat.
Proof. induction l as [|a l IH]; simpl; [done | rewrite IH; lia]. Qed.

Lemma family_existing_length {F} (data : Data F) cs :
  family_existing data = Ok cs → length cs = length (existing_hospitals data).
Proof.
  intros Hcs. rewrite (collect_length (λ _, 1%nat) _ _ _ Hcs).
  - rewrite sum_list_with_const. lia.
  - intros j cs' _ (xj & _ & [= <-])%bind_Ok. done.
Qed.

Lemma family_budget_length {F} (data : Data F) cs :
  family_budget data = Ok cs → length cs = 1%nat.
Proof. intros (ts & -> & _)%family_budget_Ok. done. Qed.

Lemma family_linking_length {F} (data : Data F) cs :
  family_linking data = Ok cs → length cs = length (all_hospitals data).
Proof.
  intros Hcs. rewrite (collect_length (λ _, 1%nat) _ _ _ Hcs).
  - rewrite sum_list_with_const. lia.
  - intros j cs' _ (ts & _ & (xj & _ & [= <-])%bind_Ok)%bind_Ok. done.
Qed.

Lemma family_single_length {F} (data : Data F) cs :
  family_single data = Ok cs → length cs = length (households data).
Proof.
  intros Hcs. rewrite (collect_length (λ _, 1%nat) _ _ _ Hcs).
  - rewrite sum_list_with_const. lia.
  - intros i cs' _ (ts & _ & [= <-])%bind_Ok. done.
Qed.

Lemma family_distance_dense_length {F} (data : Data F) cs :
  family_distance_dense data = Ok cs →
  length cs = (length (households data) * length (all_hospitals data))%nat
  ∧ ∀ c, c ∈ cs → gp.c_lazy c = false.
Proof.
  intros Hcs. split.
  - rewrite (collect_length (λ _, length (all_hospitals data)) _ _ _ Hcs).
    + by rewrite sum_list_with_const.
    + intros i row _ Hrow.
      rewrite (collect_length (λ _, 1%nat) _ _ _ Hrow).
      * rewrite sum_list_with_const. lia.
      * intros j cs' _ (yij & _ & (r & _ & (d & _ & [= <-])%bind_Ok)%bind_Ok)%bind_Ok.
        done.
  - intros c (i & j & yij & row & d & _ & _ & _ & _ & _ & ->)
      %(family_distance_dense_Ok _ _ Hcs). done.
Qed.

Lemma sum_list_with_all {A} (f : A → nat) (l : list A) (k : nat) :
  (∀ a, a ∈ l → f a = k) → sum_list_with f l = (length l * k)%nat.
Proof.
  induction l as [|a l IH]; intros Hk; simpl; [done |].
  rewrite (Hk a) by (by left). rewrite IH; [lia |]. intros a' Ha'. apply Hk. by right.
Qed.

Lemma length_pairs hs sites : length (pairs hs sites) = (length hs * length sites)%nat.
Proof.
  unfold pairs. induction hs as [|i hs IH]; [done |].
  rewrite bind_cons, length_app, length_fmap, IH. simpl. lia.
Qed.

Lemma zero_row_le (row : option (gmap string Z)) (sites : list string) :
  (sum_list_with (λ j,
     match row with
     | Some row => match row !! j with
                   | Some d => if (d =? 0)%Z then 1 else 0
                   | None => 0
                   end
     | None => 0
     end) sites ≤ length sites)%nat.
Proof.
  induction sites as [|j sites IHs]; simpl; [lia |].
  destruct row as [row|]; [| lia].
  destruct (row !! j) as [d|]; [| lia]. destruct (d =? 0); lia.
Qed.

Lemma zero_pairs_le {F} (data : Data F) :
  (zero_pairs data ≤ length (households data) * length (all_hospitals data))%nat.
Proof.
  unfold zero_pairs.
  induction (households data) as [|i hs IH]; simpl; [lia |].
  pose proof (zero_row_le (distance_indicators data !! i) (all_hospitals data)).
  lia.
Qed.

Lemma sum_list_with_pos {A} (f : A → nat) (l : list A) :
  (0 < sum_list_with f l)%nat ↔ ∃ a, a ∈ l ∧ (0 < f a)%nat.
Proof.
  induction l as [|a l IH]; simpl.
  - split; [lia | by intros (a & ?%elem_of_nil & _)].
  - split.
    + intros Hpos. destruct (decide (0 < f a)%nat) as [Ha | Ha].
      * exists a. split; [by left | done].
      * destruct (proj1 IH) as (a' & Ha' & Hf); [lia |].
        exists a'. split; [by right | done].
    + intros (a' & [-> | Ha']%elem_of_cons & Hf); [lia |].
      assert (0 < sum_list_with f l)%nat; [| lia]. apply IH. eauto.
Qed.

Lemma zero_pairs_pos {F} (data : Data F) :
  (0 < zero_pairs data)%nat
  ↔ ∃ i j row, i ∈ households data ∧ j ∈ all_hospitals data
               ∧ distance_indicators data !! i = Some row ∧ row !! j = Some 0.
Proof.
  unfold zero_pairs. rewrite sum_list_with_pos. split.
  - intros (i & Hi & (j & Hj & Hpos)%sum_list_with_pos).
    destruct (distance_indicators data !! i) as [row|] eqn:Hrow; [| lia].
    destruct (row !! j) as [d|] eqn:Hd; [| lia].
    destruct (d =? 0) eqn:Hd0; [| lia]. apply Z.eqb_eq in Hd0 as ->.
    exists i, j, row. done.
  - intros (i & j & row & Hi & Hj & Hrow & Hd).
    exists i. split; [done |]. apply sum_list_with_pos.
    exists j. split; [done |]. rewrite Hrow, Hd. simpl. lia.
Qed.

Lemma family_distance_lazy_zero {F} (data : Data F) cs :
  family_distance_lazy data = Ok cs → cs = [] ∧ zero_pairs data = 0%nat.
Proof.
  intros [-> Hnz]%family_distance_lazy_Ok. split; [done |].
  destruct (decide (0 < zero_pairs data)%nat) as [Hpos | ?]; [| lia].
  apply zero_pairs_pos in Hpos as (i & j & row & Hi & Hj & Hrow & Hd).
  destruct (Hnz i j Hi Hj) as (row' & d & Hrow' & Hd' & Hne). congruence.
Qed.

Lemma shared_families_not_lazy {F} (data : Data F) c1 c2 c3 c4 :
  family_existing data = Ok c1 → family_budget data = Ok c2 →
  family_linking data = Ok c3 → family_single data = Ok c4 →
  ∀ c, c ∈ c1 ++ c2 ++ c3 ++ c4 → gp.c_lazy c = false.
Proof.
  intros H1 H2 H3 H4 c. rewrite !elem_of_app. intros [Hc | [Hc | [Hc | Hc]]].
  - by apply (family_existing_Ok _ _ H1) in Hc as (j & xj & _ & _ & ->).
  - apply family_budget_Ok in H2 as (ts & -> & _).
    by apply list_elem_of_singleton in Hc as ->.
  - apply family_linking_Ok in H3 as [H3 _].
    by apply H3 in Hc as (j & _ & ts & xj & _ & _ & ->).
  - by apply (family_single_Ok _ _ H4) in Hc as (i & _ & ts & _ & ->).
Qed.

Lemma formulation_sizes {F} name (data : Data F) fam m cs (k : nat) (lz : bool) :
  formulation name data fam = Ok m → fam = Ok cs →
  length cs = k → (∀ c, c ∈ cs → gp.c_lazy c = lz) →
  NumVars m = (length (all_hospitals data)
               + length (households data) * length (all_hospitals data))%nat
  ∧ NumBinVars m = NumVars m
  ∧ NumConstrs m = (length (existing_hospitals data) + 1 + length (all_hospitals data)
                    + length (households data) + k)%nat
  ∧ NumLazy m = if lz then k else 0%nat.
Proof.
  intros Hm Hfam Hk Hlz.
  apply formulation_Ok in Hm
    as (obj & c1 & c2 & c3 & c4 & c5 & _ & H1 & H2 & H3 & H4 & H5 & ->).
  assert (c5 = cs) as -> by congruence.
  unfold NumVars, NumBinVars, NumConstrs, NumLazy. cbn [gp.vars gp.constrs].
  assert (Hv : length (binary_named x_name (all_hospitals data)
                       ++ binary_named y_name
                            (pairs (households data) (all_hospitals data)))
               = (length (all_hospitals data)
                  + length (households data) * length (all_hospitals data))%nat).
  { unfold binary_named. by rewrite length_app, !length_fmap, length_pairs. }
  split_and!.
  - exact Hv.
  - rewrite (sum_list_with_all _ _ 1%nat); [lia |].
    intros [vt n] [Hin | Hin]%elem_of_app;
      apply list_elem_of_fmap in Hin as (? & [= -> _] & _); done.
  - rewrite !length_app.
    rewrite (family_existing_length _ _ H1), (family_budget_length _ _ H2),
      (family_linking_length _ _ H3), (family_single_length _ _ H4), Hk. lia.
  - rewrite !app_assoc, sum_list_with_app, <- !app_assoc.
    rewrite (sum_list_with_all _ (c1 ++ c2 ++ c3 ++ c4) 0%nat).
    + rewrite (sum_list_with_all _ cs (if lz then 1%nat else 0%nat)).
      * rewrite Hk. destruct lz; lia.
      * intros c Hc. by rewrite (Hlz c Hc).
    + intros c Hc. by rewrite (shared_families_not_lazy data c1 c2 c3 c4 H1 H2 H3 H4 c Hc).
Qed.

(** X1. The dense model has one binary variable per site and per visited
    household-site pair and no other variable; its constraint count is
    [|existing| + 1 + |sites| + |households| + |households| * |sites|], and
    none of its constraints is lazy. *)
Theorem dense_model_sizes {F} (data : Data F) (m : gp.Model) :
  generate_gurobipy_model data = Ok m →
  NumVars m = (length (all_hospitals data)
               + length (households data) * length (all_hospitals data))%nat
  ∧ NumBinVars m = NumVars m
  ∧ NumConstrs m = (length (existing_hospitals data) + 1 + length (all_hospitals data)
                    + length (households data)
                    + length (households data) * length (all_hospitals data))%nat
  ∧ NumLazy m = 0%nat.
Proof.
  rewrite generate_gurobipy_model_eq. intros Hm.
  pose proof Hm as (_ & _ & _ & _ & _ & cd & _ & _ & _ & _ & _ & Hcd & _)%formulation_Ok.
  destruct (family_distance_dense_length data cd Hcd) as [Hlen Hlz].
  exact (formulation_sizes _ data _ m cd _ false Hm Hcd Hlen Hlz).
Qed.

Lemma dense_model_sizes_witness :
  ∃ m, generate_gurobipy_model example_data = Ok m
    ∧ NumVars m = (length (all_hospitals example_data)
                   + length (households example_data)
                     * length (all_hospitals example_data))%nat
    ∧ NumBinVars m = NumVars m
    ∧ NumConstrs m = (length (existing_hospitals example_data) + 1
                      + length (all_hospitals example_data)
                      + length (households example_data)
                      + length (households example_data)
                        * length (all_hospitals example_data))%nat
    ∧ NumLazy m = 0%nat.
Proof.
  eexists. split; [vm_compute; reflexivity |].
  apply (dense_model_sizes example_data). vm_compute. reflexivity.
Defined.

(** X2. The sparse builder returns only when no visited pair has indicator
    0.  The model it then returns declares the same variables as the dense
    one and carries no distance constraint at all: its constraint count is
    [|existing| + 1 + |sites| + |households|], and none is lazy. *)
Theorem sparse_model_sizes {F} (data : Data F) (m : gp.Model) :
  build_model data = Ok m →
  zero_pairs data = 0%nat
  ∧ NumVars m = (length (all_hospitals data)
                 + length (households data) * length (all_hospitals data))%nat
  ∧ NumBinVars m = NumVars m
  ∧ NumConstrs m = (length (existing_hospitals data) + 1 + length (all_hospitals data)
                    + length (households data))%nat
  ∧ NumLazy m = 0%nat.
Proof.
  rewrite build_model_eq. intros Hm.
  pose proof Hm as (_ & _ & _ & _ & _ & cl & _ & _ & _ & _ & _ & Hcl & _)%formulation_Ok.
  destruct (family_distance_lazy_zero data cl Hcl) as [-> Hzero].
  destruct (formulation_sizes _ data _ m [] 0%nat false Hm Hcl eq_refl)
    as (Hv & Hb & Hc & Hl); [by intros c ?%elem_of_nil |].
  split_and!; [done.. | | done]. rewrite Hc. lia.
Qed.

Lemma sparse_model_sizes_witness :
  ∃ m, build_model example_data_near = Ok m
    ∧ zero_pairs example_data_near = 0%nat
    ∧ NumVars m = (length (all_hospitals example_data_near)
                   + length (households example_data_near)
                     * length (all_hospitals example_data_near))%nat
    ∧ NumBinVars m = NumVars m
    ∧ NumConstrs m = (length (existing_hospitals example_data_near) + 1
                      + length (all_hospitals example_data_near)
                      + length (households example_data_near))%nat
    ∧ NumLazy m = 0%nat.
Proof.
  eexists. split; [vm_compute; reflexivity |].
  apply (sparse_model_sizes example_data_near). vm_compute. reflexivity.
Defined.

(** ** What every feasible solution satisfies *)

Lemma built_formulation {F} (data : Data F) m :
  generate_gurobipy_model data = Ok m ∨ build_model data = Ok m →
  ∃ name fam, formulation name data fam = Ok m.
Proof.
  intros [Hm | Hm].
  - rewrite generate_gurobipy_model_eq in Hm. eauto.
  - rewrite build_model_eq in Hm. eauto.
Qed.

Lemma eval_quicksum_cons val t ts :
  gp.eval val (gp.quicksum (t :: ts)) = t.1 * val t.2 + gp.eval val (gp.quicksum ts).
Proof. done. Qed.

Lemma eval_quicksum_nonneg val ts :
  (∀ t, t ∈ ts → t.1 = 1 ∧ 0 ≤ val t.2) → 0 ≤ gp.eval val (gp.quicksum ts).
Proof.
  induction ts as [|t ts IH]; intros Hts; [done |].
  rewrite eval_quicksum_cons.
  destruct (Hts t) as [-> ?]; [by left |].
  assert (0 ≤ gp.eval val (gp.quicksum ts)); [| lia].
  apply IH. intros t' Ht'. apply Hts. by right.
Qed.

Lemma eval_quicksum_ge_one val ts a t :
  (∀ t, t ∈ ts → t.1 = 1 ∧ 0 ≤ val t.2) →
  ts !! a = Some t → val t.2 ≤ gp.eval val (gp.quicksum ts).
Proof.
  revert a. induction ts as [|t0 ts IH]; intros a Hts Ha; [done |].
  rewrite eval_quicksum_cons.
  destruct (Hts t0) as [-> ?]; [by left |].
  assert (Hrest : ∀ t', t' ∈ ts → t'.1 = 1 ∧ 0 ≤ val t'.2).
  { intros t' Ht'. apply Hts. by right. }
  destruct a as [|a]; simpl in Ha.
  - injection Ha as ->. pose proof (eval_quicksum_nonneg val ts Hrest). lia.
  - pose proof (IH a Hrest Ha). lia.
Qed.

Lemma eval_quicksum_ge_two val ts a b t u :
  (∀ t, t ∈ ts → t.1 = 1 ∧ 0 ≤ val t.2) →
  (a < b)%nat → ts !! a = Some t → ts !! b = Some u →
  val t.2 + val u.2 ≤ gp.eval val (gp.quicksum ts).
Proof.
  revert a b. induction ts as [|t0 ts IH]; intros a b Hts Hab Ha Hb; [done |].
  rewrite eval_quicksum_cons.
  destruct (Hts t0) as [-> ?]; [by left |].
  assert (Hrest : ∀ t', t' ∈ ts → t'.1 = 1 ∧ 0 ≤ val t'.2).
  { intros t' Ht'. apply Hts. by right. }
  destruct b as [|b]; [lia |]. simpl in Hb.
  destruct a as [|a]; simpl in Ha.
  - injection Ha as ->. pose proof (eval_quicksum_ge_one val ts b u Hrest Hb). lia.
  - pose proof (IH a b Hrest ltac:(lia) Ha Hb). lia.
Qed.

Lemma unit_terms_binary {A} (P : A → nat → Prop) (val : nat → Z) (l : list A) ts :
  Forall2 (λ a t, ∃ y, P a y ∧ t = (1, y)) l ts →
  (∀ a y, P a y → val y = 0 ∨ val y = 1) →
  ∀ t, t ∈ ts → t.1 = 1 ∧ 0 ≤ val t.2.
Proof.
  intros Hts Hbin t Ht.
  destruct (Forall2_elem_r _ _ _ _ Hts Ht) as (a & _ & y & Hy & ->). simpl.
  split; [done |]. destruct (Hbin a y Hy); lia.
Qed.

(** X3. In every feasible solution of either model each existing hospital
    is open: constraint 1 fixes [x[j] = 1]. *)
Theorem feasible_existing_open {F} (data : Data F) m (val : nat → Z) j xj :
  generate_gurobipy_model data = Ok m ∨ build_model data = Ok m →
  gp.feasible m val = true →
  j ∈ existing_hospitals data → open_vars data !! j = Some xj →
  val xj = 1.
Proof.
  intros (name & fam & Hm)%built_formulation [_ Hall]%feasible_spec Hj Hx.
  apply formulation_Ok in Hm
    as (obj & c1 & c2 & c3 & c4 & c5 & _ & H1 & _ & _ & _ & _ & ->).
  apply holds_c_existing with (j := j), Hall. cbn [gp.constrs].
  rewrite !elem_of_app. left. apply (family_existing_Ok _ _ H1). eauto.
Qed.

Lemma feasible_existing_open_witness :
  ∃ m, generate_gurobipy_model example_data = Ok m
       ∧ gp.feasible m (empty_assignment example_data) = true
       ∧ empty_assignment example_data 0%nat = 1.
Proof.
  eexists. split; [vm_compute; reflexivity |]. split; [vm_compute; reflexivity |].
  apply (feasible_existing_open example_data _ _ "EJ1" 0%nat (or_introl eq_refl)).
  - vm_compute. reflexivity.
  - by left.
  - vm_compute. reflexivity.
Defined.

(** X4. In every feasible solution a closed site serves nobody: if
    [x[j] = 0] the linking constraint forces [y[i, j] = 0] for every listed
    household. *)
Theorem feasible_closed_site_unused {F} (data : Data F) m (val : nat → Z) i j xj yij :
  generate_gurobipy_model data = Ok m ∨ build_model data = Ok m →
  gp.feasible m val = true →
  i ∈ households data →
  open_vars data !! j = Some xj → assign_vars data !! (i, j) = Some yij →
  val xj = 0 → val yij = 0.
Proof.
  intros (name & fam & Hm)%built_formulation [Hdom Hall]%feasible_spec Hi Hx Hy Hx0.
  pose proof (λ i' j' y, assigned_binary name data fam m val i' j' y Hm Hdom) as Hbin.
  apply formulation_Ok in Hm
    as (obj & c1 & c2 & c3 & c4 & c5 & _ & _ & _ & H3 & _ & _ & ->).
  apply family_linking_Ok in H3 as [_ H3].
  destruct (H3 j) as (c & Hc & ts & xj' & Hx' & Hts & ->).
  { by apply open_vars_Some in Hx as [? _]. }
  assert (xj' = xj) as -> by congruence.
  assert (Hin : c_linking j ts (length (households data)) xj
                ∈ gp.constrs {| gp.ModelName := name; gp.vars := []; gp.objective := obj;
                                gp.ModelSense := gp.MAXIMIZE;
                                gp.constrs := c1 ++ c2 ++ c3 ++ c4 ++ c5 |}).
  { cbn [gp.constrs]. rewrite !elem_of_app. auto. }
  cbn [gp.constrs] in Hall, Hin. apply Hall, holds_c_linking in Hin.
  rewrite Hx0, Z.mul_0_r in Hin.
  apply list_elem_of_lookup in Hi as [a Ha].
  destruct (Forall2_lookup_l _ _ _ _ _ Hts Ha) as (t & Ht & y & Hy' & ->).
  assert (y = yij) as -> by congruence.
  pose proof (eval_quicksum_ge_one val ts a (1, yij)
                (unit_terms_binary _ val _ ts Hts (λ i' y, Hbin i' j y)) Ht) as Hle.
  simpl in Hle. destruct (Hbin i j yij Hy); lia.
Qed.

Lemma feasible_closed_site_unused_witness :
  ∃ m, generate_gurobipy_model example_data = Ok m
       ∧ empty_assignment example_data 3%nat = 0.
Proof.
  eexists. split; [vm_compute; reflexivity |].
  apply (feasible_closed_site_unused example_data _ _ "H1" "CJ1" 1%nat 3%nat
           (or_introl eq_refl)).
  - vm_compute. reflexivity.
  - by left.
  - vm_compute. reflexivity.
  - vm_compute. reflexivity.
  - vm_compute. reflexivity.
Defined.

(** X5. In every feasible solution a household is assigned to at most one
    site: two different listed sites cannot both serve household [i]. *)
Theorem feasible_single_assignment {F} (data : Data F) m (val : nat → Z)
    i j j' yij yij' :
  generate_gurobipy_model data = Ok m ∨ build_model data = Ok m →
  gp.feasible m val = true →
  i ∈ households data → j ≠ j' →
  assign_vars data !! (i, j) = Some yij → assign_vars data !! (i, j') = Some yij' →
  val yij = 1 → val yij' = 0.
Proof.
  intros (name & fam & Hm)%built_formulation [Hdom Hall]%feasible_spec Hi Hne Hy Hy' H1.
  pose proof (λ i' j' y, assigned_binary name data fam m val i' j' y Hm Hdom) as Hbin.
  apply formulation_Ok in Hm
    as (obj & c1 & c2 & c3 & c4 & c5 & _ & _ & _ & _ & H4 & _ & ->).
  cbn [gp.constrs] in Hall.
  assert (∃ ts, Forall2 (λ j t, ∃ y, assign_vars data !! (i, j) = Some y ∧ t = (1, y))
                  (all_hospitals data) ts
                ∧ gp.eval val (gp.quicksum ts) ≤ 1) as (ts & Hts & Hsum).
  { unfold family_single in H4.
    destruct (collect_all_Ok _ _ _ H4 i Hi) as [cs Hg].
    pose proof Hg as (ts & Hts & [= <-])%bind_Ok.
    exists ts. split.
    - apply unit_terms_Forall2 in Hts. eapply Forall2_impl; [exact Hts |].
      intros j0 t (y & Hy0%getitem2_Ok & ->). eauto.
    - apply holds_c_single with (i := i), Hall. rewrite !elem_of_app.
      right; right; right; left.
      apply (collect_Ok _ _ _ H4). exists i, [c_single i ts].
      split_and!; [done.. |]. by left. }
  assert (Hunit := unit_terms_binary _ val _ ts Hts (λ j0 y, Hbin i j0 y)).
  apply assign_vars_Some in Hy as Hj. destruct Hj as (_ & Hj & _).
  apply assign_vars_Some in Hy' as Hj'. destruct Hj' as (_ & Hj' & _).
  apply list_elem_of_lookup in Hj as [a Ha]. apply list_elem_of_lookup in Hj' as [b Hb].
  destruct (Forall2_lookup_l _ _ _ _ _ Hts Ha) as (t & Ht & y & Hyt & ->).
  destruct (Forall2_lookup_l _ _ _ _ _ Hts Hb) as (u & Hu & y' & Hyu & ->).
  assert (y = yij) as -> by congruence. assert (y' = yij') as -> by congruence.
  assert (a ≠ b) as Hab by (intros ->; congruence).
  assert (val yij + val yij' ≤ gp.eval val (gp.quicksum ts)) as Hle.
  { destruct (decide (a < b)%nat).
    - apply (eval_quicksum_ge_two val ts a b (1, yij) (1, yij')); done.
    - rewrite Z.add_comm.
      apply (eval_quicksum_ge_two val ts b a (1, yij') (1, yij)); [done | lia | done..]. }
  destruct (Hbin i j' yij' Hy'); lia.
Qed.

Lemma feasible_single_assignment_witness :
  ∃ m, generate_gurobipy_model example_data = Ok m
       ∧ (λ v : nat, if decide (v = 0%nat ∨ v = 2%nat) then 1 else 0) 3%nat = 0.
Proof.
  eexists. split; [vm_compute; reflexivity |].
  apply (feasible_single_assignment example_data _
           (λ v : nat, if decide (v = 0%nat ∨ v = 2%nat) then 1 else 0)
           "H1" "EJ1" "CJ1" 2%nat 3%nat (or_introl eq_refl)).
  - vm_compute. reflexivity.
  - by left.
  - discriminate.
  - vm_compute. reflexivity.
  - vm_compute. reflexivity.
  - reflexivity.
Defined.

(** ** When a builder raises *)

Lemma formulation_raises_iff {F} name (data : Data F) fam :
  raises (formulation name data fam)
  ↔ raises (coverage_objective (households data) (all_hospitals data)
              (population data) (assign_vars data))
    ∨ raises (family_existing data) ∨ raises (family_budget data)
    ∨ raises (family_linking data) ∨ raises (family_single data) ∨ raises fam.
Proof.
  unfold formulation.
  destruct (coverage_objective _ _ _ _); simpl; [| tauto].
  destruct (family_existing data); simpl; [| tauto].
  destruct (family_budget data); simpl; [| tauto].
  destruct (family_linking data); simpl; [| tauto].
  destruct (family_single data); simpl; [| tauto].
  destruct fam; simpl; tauto.
Qed.

Lemma open_vars_None {F} (data : Data F) j :
  open_vars data !! j = None ↔ j ∉ all_hospitals data.
Proof.
  split.
  - intros Hn Hj. destruct (open_vars_in data j Hj) as (xj & Hx & _). congruence.
  - intros Hj. destruct (open_vars data !! j) as [xj|] eqn:Hx; [| done].
    by apply open_vars_Some in Hx as [? _].
Qed.

Lemma unit_open_terms_raises {F} (data : Data F) {B} (l : list string)
    (k : string → nat → B) :
  raises (collect l (λ j, xj ← getitem (open_vars data) j; Ok [k j xj]))
  ↔ ∃ j, j ∈ l ∧ j ∉ all_hospitals data.
Proof.
  rewrite collect_raises. apply exist_proper; intros j.
  rewrite <- open_vars_None, <- getitem_raises.
  by destruct (getitem (open_vars data) j).
Qed.

Lemma family_linking_Ok_always {F} (data : Data F) : ¬ raises (family_linking data).
Proof.
  unfold family_linking. intros (j & Hj & Hr)%collect_raises.
  apply bind_raises in Hr as [Hr | (ts & _ & Hr)].
  - apply collect_raises in Hr as (i & Hi & Hr).
    destruct (assign_vars_in data i j Hi Hj) as (yij & Hy%getitem2_Ok & _).
    by rewrite Hy in Hr.
  - destruct (open_vars_in data j Hj) as (xj & Hx%getitem_Ok & _).
    by rewrite Hx in Hr.
Qed.

Lemma family_single_Ok_always {F} (data : Data F) : ¬ raises (family_single data).
Proof.
  unfold family_single. intros (i & Hi & Hr)%collect_raises.
  apply bind_raises in Hr as [Hr | (ts & _ & [])].
  apply collect_raises in Hr as (j & Hj & Hr).
  destruct (assign_vars_in data i j Hi Hj) as (yij & Hy%getitem2_Ok & _).
  by rewrite Hy in Hr.
Qed.

Lemma coverage_objective_raises_iff {F} (data : Data F) :
  raises (coverage_objective (households data) (all_hospitals data)
            (population data) (assign_vars data))
  ↔ ∃ i j, i ∈ households data ∧ j ∈ all_hospitals data ∧ population data !! i = None.
Proof.
  rewrite coverage_objective_raises.
  apply exist_proper; intros i. apply exist_proper; intros j.
  split; intros (Hi & Hj & H); (split_and!; [done.. |]);
    destruct (assign_vars_in data i j Hi Hj) as (yij & Hy%getitem2_Ok & _).
  - apply getitem_raises. destruct (getitem (population data) i); [| done].
    simpl in H. by rewrite Hy in H.
  - apply getitem_raises in H. by destruct (getitem (population data) i).
Qed.

Lemma family_distance_dense_raises_iff {F} (data : Data F) :
  raises (family_distance_dense data)
  ↔ ∃ i j, i ∈ households data ∧ j ∈ all_hospitals data
           ∧ (distance_indicators data !! i = None
              ∨ ∃ row, distance_indicators data !! i = Some row ∧ row !! j = None).
Proof.
  unfold family_distance_dense. rewrite collect2_raises.
  apply exist_proper; intros i. apply exist_proper; intros j.
  split; intros (Hi & Hj & H); (split_and!; [done.. |]);
    destruct (assign_vars_in data i j Hi Hj) as (yij & Hy%getitem2_Ok & _).
  - rewrite Hy in H. cbn [mbind result_bind] in H.
    destruct (distance_indicators data !! i) as [row|] eqn:Hrow; [| by left].
    right. exists row. split; [done |].
    apply getitem_Ok in Hrow. rewrite Hrow in H. cbn [mbind result_bind] in H.
    apply getitem_raises. by destruct (getitem row j).
  - rewrite Hy. cbn [mbind result_bind].
    destruct H as [Hrow | (row & Hrow & Hd)].
    + apply getitem_raises in Hrow. by destruct (getitem (distance_indicators data) i).
    + apply getitem_Ok in Hrow. rewrite Hrow. cbn [mbind result_bind].
      apply getitem_raises in Hd. by destruct (getitem row j).
Qed.

Lemma formulation_raises_inconsistent {F} name (data : Data F) fam :
  (raises fam ↔ raises (family_distance_dense data)) →
  raises (formulation name data fam) ↔ inconsistent data.
Proof.
  intros Hfam. rewrite formulation_raises_iff, Hfam.
  rewrite coverage_objective_raises_iff, family_distance_dense_raises_iff.
  unfold family_existing. rewrite (unit_open_terms_raises data _ c_existing).
  assert (raises (family_budget data)
          ↔ ∃ j, j ∈ candidate_hospitals data ∧ j ∉ all_hospitals data) as ->.
  { unfold family_budget. rewrite bind_raises.
    rewrite (unit_open_terms_raises data _ (λ _ xj, (1, xj))).
    split; [intros [? | (ts & _ & [])]; done | auto]. }
  pose proof (family_linking_Ok_always data). pose proof (family_single_Ok_always data).
  unfold inconsistent. split.
  - intros [(i & j & Hi & Hj & Hp) | [He | [Hc | [? | [? | (i & j & Hi & Hj & Hd)]]]]];
      [| tauto | tauto | done | done |].
    + right; right. exists i, j. tauto.
    + right; right. exists i, j. tauto.
  - intros [He | [Hc | (i & j & Hi & Hj & [Hp | Hd])]]; [tauto | tauto | |].
    + left. eauto.
    + do 5 right. eauto.
Qed.

Lemma generate_gurobipy_model_raises_iff {F} (data : Data F) :
  raises (generate_gurobipy_model data) ↔ inconsistent data.
Proof. rewrite generate_gurobipy_model_eq. by apply formulation_raises_inconsistent. Qed.

Lemma build_model_raises_iff {F} (data : Data F) :
  raises (build_model data) ↔ inconsistent data ∨ (0 < zero_pairs data)%nat.
Proof.
  rewrite build_model_eq.
  rewrite <- (formulation_raises_inconsistent "TimorLeste_Healthcare" data
                (family_distance_dense data)) by done.
  rewrite !formulation_raises_iff, family_distance_lazy_raises, zero_pairs_pos. tauto.
Qed.

Lemma build_model_TypeError {F} (data : Data F) :
  ¬ inconsistent data → (0 < zero_pairs data)%nat →
  build_model data = Raise (TypeError "lazy").
Proof.
  intros Hcons Hzero.
  destruct (proj1 (raises_Raise (build_model data))) as [e He].
  { apply build_model_raises_iff. by right. }
  rewrite He. f_equal. rewrite build_model_eq in He.
  apply formulation_Raise in He as [Hs | Hl].
  - destruct Hcons.
    apply (formulation_raises_inconsistent "" data (family_distance_dense data));
      [done |].
    apply formulation_raises_iff.
    destruct Hs as [Hs | [Hs | [Hs | [Hs | Hs]]]]; rewrite Hs; simpl; tauto.
  - apply family_distance_lazy_Raise in Hl
      as (i & j & Hi & Hj & [[_ Hrow] | [[_ (row & Hrow & Hd)] | [-> _]]]);
      [| | done]; destruct Hcons; right; right; exists i, j; eauto 8.
Qed.

(** X6. The dense builder raises exactly on the inconsistent instances (an
    existing or candidate site missing from the combined site list, or a
    visited household-site pair lacking the household's population, its
    indicator row or the site's indicator), and then with a [KeyError].  The
    sparse builder raises on these and, in addition, on every instance with
    a visited pair of indicator 0: with a [KeyError] or a [TypeError], and
    with the [TypeError] of its [lazy] keyword whenever the instance is
    consistent. *)
Theorem build_raises_iff {F} (data : Data F) :
  (raises (generate_gurobipy_model data) ↔ inconsistent data)
  ∧ (∀ e, generate_gurobipy_model data = Raise e → ∃ k, e = KeyError k)
  ∧ (raises (build_model data) ↔ inconsistent data ∨ (0 < zero_pairs data)%nat)
  ∧ (∀ e, build_model data = Raise e → e = TypeError "lazy" ∨ ∃ k, e = KeyError k)
  ∧ (¬ inconsistent data → (0 < zero_pairs data)%nat →
     build_model data = Raise (TypeError "lazy")).
Proof.
  split_and!.
  - apply generate_gurobipy_model_raises_iff.
  - apply dense_Raise_KeyError.
  - apply build_model_raises_iff.
  - apply sparse_Raise_kind.
  - apply build_model_TypeError.
Qed.

(* ================================================================== *)
(** * Further properties of the generator *)

Section GeneratorMore.
Context `{Lib}.

Lemma draw_population_spec hs s pop s' :
  draw_population hs s = Ok (pop, s') →
  (∀ h, h ∈ hs → ∃ s0, pop !! h = Some (np_random_randint 50 500 s0).1)
  ∧ (∀ h r, pop !! h = Some r → h ∈ hs).
Proof.
  unfold draw_population. intros Hf.
  match type of Hf with
  | for_each ?ll ?bb ?ss = _ =>
      pose proof (for_each_Ok_inv
        (λ pre (st : gmap string Z * np_state),
           (∀ h, h ∈ pre → ∃ s0, st.1 !! h = Some (np_random_randint 50 500 s0).1)
           ∧ (∀ h r, st.1 !! h = Some r → h ∈ pre)) ll bb ss (pop, s')) as Hinv
  end.
  apply Hinv; [| | exact Hf]; clear Hinv Hf.
  - simpl. split; [by intros h ?%elem_of_nil |]. intros h r. by rewrite lookup_empty.
  - intros pre h [pop0 s0] _ [Hin Hdom]. simpl in Hin, Hdom.
    destruct (np_random_randint 50 500 s0) as [r s1] eqn:Hr.
    eexists. split; [done |]. simpl. split.
    + intros h' [Hh' | ->%list_elem_of_singleton]%elem_of_app.
      * rewrite lookup_insert. case_decide; [| by apply Hin].
        exists s0. by rewrite Hr.
      * rewrite lookup_insert_eq. exists s0. by rewrite Hr.
    + intros h' r'. rewrite lookup_insert, elem_of_app. case_decide.
      * subst. intros _. right. by left.
      * intros ?%Hdom. by left.
Qed.

(** A returned instance, taken apart. *)
Lemma generate_data_sized_inv n m k seed w d w' :
  generate_data_sized n m k seed w = Ok (d, w') →
  households d = ids "H" n
  ∧ existing_hospitals d = ids "EJ" m
  ∧ candidate_hospitals d = ids "CJ" k
  ∧ all_hospitals d = ids "EJ" m ++ ids "CJ" k
  ∧ (∀ h, h ∈ households d →
       ∃ s0, population d !! h = Some (np_random_randint 50 500 s0).1)
  ∧ (∀ h r, population d !! h = Some r → h ∈ households d)
  ∧ rows_complete (households d) (all_hospitals d) (distance_indicators d)
  ∧ all_flags (distance_indicators d).
Proof.
  destruct (generate_data_sized_spec n m k seed)
    as (d0 & w0 & Hgen & Hhs & Hall & Hex & Hca & _ & _ & Hcomplete & _ & Hind & Hfl).
  rewrite Hgen. intros [= <- <-].
  assert (Hpop : ∃ s s', draw_population (households d0) s = Ok (population d0, s')).
  { specialize (Hgen w). unfold generate_data_sized in Hgen.
    cbn [py_rng np_rng] in Hgen.
    destruct (random_uniform _ _ _) as [u py1].
    destruct (random_randint _ _ _) as [r py2].
    destruct (np_random_uniform_rows _ _ n _) as [hcs np1].
    destruct (np_random_uniform_rows _ _ (m + k) _) as [scs np2].
    apply bind_Ok in Hgen as ([pop np3] & Hp & Hgen).
    apply bind_Ok in Hgen as ([td np4] & _ & Hgen).
    apply bind_Ok in Hgen as (ind & _ & [= <- _]).
    cbn [households population]. eauto. }
  destruct Hpop as (s & s' & Hpop). apply draw_population_spec in Hpop as [Hp1 Hp2].
  split_and!; [done.. | |done].
  destruct (derive_indicators_spec _ _ _ (max_travel_distance d0) Hcomplete)
    as (ind & Hind' & Hpairs & _).
  assert (ind = distance_indicators d0) as -> by congruence.
  intros h st Hh Hst. destruct (Hpairs h st Hh Hst) as (drow & dd & row & _ & _ & ? & ?).
  eauto.
Qed.

End GeneratorMore.

Lemma generated_consistent `{Lib} n m k seed w d w' :
  generate_data_sized n m k seed w = Ok (d, w') →
  ¬ inconsistent d ∧ indicators_binary d = true.
Proof.
  intros (Hhs & Hex & Hca & Hall & Hpop & _ & Hrows & Hfl)%generate_data_sized_inv.
  split.
  - intros [(j & Hj & Hn) | [(j & Hj & Hn) | (i & j & Hi & Hj & Hmiss)]].
    + apply Hn. rewrite Hall, elem_of_app. left. by rewrite <- Hex.
    + apply Hn. rewrite Hall, elem_of_app. right. by rewrite <- Hca.
    + destruct (Hpop i Hi) as [s0 Hp].
      destruct (Hrows i j Hi Hj) as (row & v & Hrow & Hv).
      destruct Hmiss as [? | [? | (row' & Hrow' & ?)]]; congruence.
  - apply indicators_binary_spec. intros i j row dd _ _ Hrow Hd. by eapply Hfl.
Qed.

Lemma generated_dense_builds `{Lib} n m k seed w d w' :
  generate_data_sized n m k seed w = Ok (d, w') →
  ∃ dense, generate_gurobipy_model d = Ok dense.
Proof.
  intros [Hcons _]%generated_consistent.
  apply not_raises_Ok. by rewrite generate_gurobipy_model_raises_iff.
Qed.

(** X7. For every seed the generated instance has 0/1 indicators and the
    dense builder returns a model for it.  The sparse builder raises the
    [TypeError] of its [lazy] keyword as soon as one generated pair is out
    of reach (indicator 0); when there is none it returns a model with the
    same feasible assignments as the dense one. *)
Theorem generated_instance_builds `{Lib} (seed : Z) (w : World) :
  ∃ d w' dense,
    generate_data seed w = Ok (d, w')
    ∧ indicators_binary d = true
    ∧ generate_gurobipy_model d = Ok dense
    ∧ ((0 < zero_pairs d)%nat → build_model d = Raise (TypeError "lazy"))
    ∧ (zero_pairs d = 0%nat →
       ∃ sparse, build_model d = Ok sparse
                 ∧ ∀ val, gp.feasible dense val = gp.feasible sparse val).
Proof.
  unfold generate_data.
  destruct (generate_data_sized_spec (Z.to_nat 20000) 15 100 seed)
    as (d & w' & Hgen & _).
  destruct (generated_consistent _ _ _ _ w d w' (Hgen w)) as [Hcons Hbin].
  destruct (generated_dense_builds _ _ _ _ w d w' (Hgen w)) as [dense Hd].
  exists d, w', dense. split_and!; [apply Hgen | done.. | |].
  - by apply build_model_TypeError.
  - intros Hzero.
    assert (∃ sparse, build_model d = Ok sparse) as [sparse Hs].
    { apply not_raises_Ok. rewrite build_model_raises_iff. intros [? | ?]; [done | lia]. }
    exists sparse. split; [done |].
    intros val. by apply (dense_sparse_feasible d).
Qed.

(** ** What the distance limit and the budget force *)

Lemma built_consistent {F} (data : Data F) m :
  generate_gurobipy_model data = Ok m ∨ build_model data = Ok m → ¬ inconsistent data.
Proof.
  intros [Hm | Hm] Hinc.
  - rewrite generate_gurobipy_model_eq in Hm.
    apply (formulation_raises_inconsistent "TimorLeste_Inefficient" data
             (family_distance_dense data)) in Hinc; [| done].
    by rewrite Hm in Hinc.
  - assert (raises (build_model data)) as Hr.
    { apply build_model_raises_iff. by left. }
    by rewrite Hm in Hr.
Qed.

Lemma consistent_indicator {F} (data : Data F) i j :
  ¬ inconsistent data → i ∈ households data → j ∈ all_hospitals data →
  ∃ row d, distance_indicators data !! i = Some row ∧ row !! j = Some d.
Proof.
  intros Hc Hi Hj.
  destruct (distance_indicators data !! i) as [row|] eqn:Hrow.
  - destruct (row !! j) as [d|] eqn:Hd; [eauto |].
    destruct Hc. right; right. exists i, j. eauto 8.
  - destruct Hc. right; right. exists i, j. eauto 8.
Qed.

Lemma served_pair_indicator {F} (data : Data F) m (val : nat → Z) i j yij :
  generate_gurobipy_model data = Ok m ∨ build_model data = Ok m →
  indicators_binary data = true →
  gp.feasible m val = true →
  assign_vars data !! (i, j) = Some yij → val yij = 1 →
  ∃ row, distance_indicators data !! i = Some row ∧ row !! j = Some 1.
Proof.
  intros Hm Hbin0 [_ Hall]%feasible_spec Hy H1.
  pose proof (proj1 (indicators_binary_spec data) Hbin0) as Hbin.
  pose proof (built_consistent data m Hm) as Hcons.
  pose proof Hy as (Hi & Hj & _)%assign_vars_Some.
  destruct (consistent_indicator data i j Hcons Hi Hj) as (row & d & Hrow & Hd).
  exists row. split; [done |].
  cut (d = 1); [by intros <- |].
  destruct Hm as [Hm | Hm].
  - rewrite generate_gurobipy_model_eq in Hm.
    apply formulation_Ok in Hm
      as (obj & c1 & c2 & c3 & c4 & c5 & _ & _ & _ & _ & _ & H5 & ->).
    cbn [gp.constrs] in Hall.
    assert (gp.holds val (c_distance i j yij d) = true) as Hle%holds_c_distance.
    { apply Hall. rewrite !elem_of_app. do 4 right.
      apply (family_distance_dense_Ok _ _ H5). eauto 12. }
    destruct (Hbin i j row d Hi Hj Hrow Hd); lia.
  - rewrite build_model_eq in Hm.
    apply formulation_Ok in Hm
      as (obj & c1 & c2 & c3 & c4 & c5 & _ & _ & _ & _ & _ & H5 & ->).
    cbn [gp.constrs] in Hall.
    destruct (family_distance_lazy_Ok _ _ H5) as [_ Hnz].
    destruct (Hnz i j Hi Hj) as (row' & d' & Hrow' & Hd' & Hne).
    assert (row' = row) as -> by congruence. assert (d' = d) as -> by congruence.
    destruct (Hbin i j row d Hi Hj Hrow Hd); [done | done].
Qed.

(** X8. In every feasible solution of either model a household is served
    only by a site within the distance limit: [y[i, j] = 1] forces the
    indicator of the pair to be 1. *)
Theorem feasible_within_distance {F} (data : Data F) m (val : nat → Z) i j yij :
  generate_gurobipy_model data = Ok m ∨ build_model data = Ok m →
  indicators_binary data = true →
  gp.feasible m val = true →
  assign_vars data !! (i, j) = Some yij → val yij = 1 →
  ∃ row, distance_indicators data !! i = Some row ∧ row !! j = Some 1.
Proof. apply served_pair_indicator. Qed.

Lemma feasible_within_distance_witness :
  ∃ m, generate_gurobipy_model example_data = Ok m
       ∧ ∃ row, distance_indicators example_data !! "H1" = Some row
                ∧ row !! "EJ1" = Some 1.
Proof.
  eexists. split; [vm_compute; reflexivity |].
  apply (feasible_within_distance example_data _
           (λ v : nat, if decide (v = 0%nat ∨ v = 2%nat) then 1 else 0)
           "H1" "EJ1" 2%nat (or_introl eq_refl)).
  - vm_compute. reflexivity.
  - vm_compute. reflexivity.
  - vm_compute. reflexivity.
  - reflexivity.
Defined.

Lemma eval_open_terms (x : gmap string nat) (val : nat → Z) l ts :
  collect l (λ j, xj ← getitem x j; Ok [(1, xj)]) = Ok ts →
  gp.eval val (gp.quicksum ts) = foldr (λ j acc, from_option val 0 (x !! j) + acc) 0 l
  ∧ ∀ t, t ∈ ts → ∃ j, j ∈ l ∧ x !! j = Some t.2 ∧ t.1 = 1.
Proof.
  revert ts. induction l as [|j l IH]; intros ts; simpl.
  - intros [= <-]. split; [done |]. by intros t ?%elem_of_nil.
  - intros (cs & (xj & Hx%getitem_Ok & [= <-])%bind_Ok
            & (rest & Hrest & [= <-])%bind_Ok)%bind_Ok.
    destruct (IH rest Hrest) as [IHe IHt]. split.
    + cbn [app]. rewrite eval_quicksum_cons, IHe, Hx. simpl. lia.
    + intros t [-> | Ht]%elem_of_cons.
      * exists j. split_and!; [by left | done..].
      * destruct (IHt t Ht) as (j' & ? & ? & ?). exists j'. split_and!; [by right | done..].
Qed.

(** X9. In every feasible solution of either model the number of opened
    candidate sites lies between 0 and the budget [max_new_hospitals]; in
    particular a negative budget leaves no feasible solution. *)
Theorem feasible_within_budget {F} (data : Data F) m (val : nat → Z) :
  generate_gurobipy_model data = Ok m ∨ build_model data = Ok m →
  gp.feasible m val = true →
  0 ≤ opened_candidates data val ≤ max_new_hospitals data.
Proof.
  intros (name & fam & Hm)%built_formulation [Hdom Hall]%feasible_spec.
  pose proof (λ j x, opened_binary name data fam m val j x Hm Hdom) as Hbin.
  apply formulation_Ok in Hm
    as (obj & c1 & c2 & c3 & c4 & c5 & _ & _ & H2 & _ & _ & _ & ->).
  cbn [gp.constrs] in Hall.
  unfold family_budget in H2. apply bind_Ok in H2 as (ts & Hts & [= <-]).
  destruct (eval_open_terms (open_vars data) val _ ts Hts) as [Heval Hterms].
  fold (opened_candidates data val) in Heval. rewrite <- Heval. split.
  - apply eval_quicksum_nonneg. intros t (j & _ & Hx & Ht1)%Hterms.
    split; [done |]. destruct (Hbin j t.2 Hx); lia.
  - apply holds_c_budget, Hall. rewrite !elem_of_app. right; left. by left.
Qed.

Lemma feasible_within_budget_witness :
  ∃ m, generate_gurobipy_model example_data = Ok m
       ∧ 0 ≤ opened_candidates example_data (empty_assignment example_data)
           ≤ max_new_hospitals example_data.
Proof.
  eexists. split; [vm_compute; reflexivity |].
  apply (feasible_within_budget example_data _ _ (or_introl eq_refl)).
  vm_compute. reflexivity.
Defined.

(** ** The objective counts covered people *)

Lemma eval_quicksum_app val ts us :
  gp.eval val (gp.quicksum (ts ++ us))
  = gp.eval val (gp.quicksum ts) + gp.eval val (gp.quicksum us).
Proof.
  induction ts as [|t ts IH]; [done |].
  cbn [app]. rewrite !eval_quicksum_cons, IH. lia.
Qed.

Lemma coverage_row_eval (val : nat → Z) (pop : gmap string Z)
    (y : gmap (string * string) nat) (i : string) (sites : list string) row :
  collect sites (λ j, p ← getitem pop i; v ← getitem2 y i j; Ok [(p, v)]) = Ok row →
  ∃ ts, collect sites (λ j, v ← getitem2 y i j; Ok [(1, v)]) = Ok ts
        ∧ gp.eval val (gp.quicksum row)
          = default 0 (pop !! i) * gp.eval val (gp.quicksum ts).
Proof.
  revert row. induction sites as [|j sites IH]; intros row; simpl.
  - intros [= <-]. exists []. split; [done |]. unfold gp.eval; simpl. lia.
  - intros (cs & (p & Hp%getitem_Ok & (v & Hv & [= <-])%bind_Ok)%bind_Ok
            & (rest & Hrest & [= <-])%bind_Ok)%bind_Ok.
    destruct (IH rest Hrest) as (ts & Hts & Heq).
    exists ((1, v) :: ts). split.
    + rewrite Hv. cbn [mbind result_bind]. rewrite Hts. done.
    + cbn [app]. rewrite !eval_quicksum_cons, Heq, Hp. simpl. lia.
Qed.

Lemma coverage_objective_bound (val : nat → Z) (hs sites : list string)
    (pop : gmap string Z)
    (y : gmap (string * string) nat) obj :
  coverage_objective hs sites pop y = Ok obj →
  (∀ i j v, y !! (i, j) = Some v → 0 ≤ val v) →
  (∀ i ts, i ∈ hs →
     collect sites (λ j, v ← getitem2 y i j; Ok [(1, v)]) = Ok ts →
     gp.eval val (gp.quicksum ts) ≤ 1) →
  (∀ i r, i ∈ hs → pop !! i = Some r → 0 ≤ r) →
  0 ≤ gp.eval val obj ≤ foldr (λ i acc, default 0 (pop !! i) + acc) 0 hs.
Proof.
  unfold coverage_objective. intros (ts & Hts & [= <-])%bind_Ok Hy.
  revert ts Hts. induction hs as [|i hs IH]; intros ts Hts Hone Hpop; simpl in *.
  - injection Hts as <-. unfold gp.eval; simpl. lia.
  - apply bind_Ok in Hts as (row & Hrow & (rest & Hrest & [= <-])%bind_Ok).
    rewrite eval_quicksum_app.
    destruct (coverage_row_eval val pop y i sites row Hrow) as (us & Hus & ->).
    assert (0 ≤ gp.eval val (gp.quicksum us)) as Hlo.
    { apply eval_quicksum_nonneg. intros t Ht.
      apply unit_terms_Forall2 in Hus.
      destruct (Forall2_elem_r _ _ _ _ Hus Ht) as (j & _ & v & Hv%getitem2_Ok & ->).
      split; [done |]. simpl. eauto. }
    pose proof (Hone i us ltac:(by left) Hus) as Hhi.
    assert (0 ≤ default 0 (pop !! i)) as Hp.
    { destruct (pop !! i) as [r|] eqn:Hr; simpl; [| done].
      apply (Hpop i r); [by left | done]. }
    destruct (IH rest Hrest) as [IHlo IHhi].
    { intros i' ts' Hi'. apply Hone. by right. }
    { intros i' r Hi'. apply Hpop. by right. }
    split; nia.
Qed.

(** X10. When no listed household has a negative population, the objective
    value of every feasible solution of either model lies between 0 and the
    total population of the listed households: a household is counted at
    most once, whatever the number of sites within reach. *)
Theorem objective_at_most_population {F} (data : Data F) m (val : nat → Z) :
  generate_gurobipy_model data = Ok m ∨ build_model data = Ok m →
  (∀ i r, i ∈ households data → population data !! i = Some r → 0 ≤ r) →
  gp.feasible m val = true →
  0 ≤ gp.ObjVal m val ≤ total_population data.
Proof.
  intros (name & fam & Hm)%built_formulation Hpop [Hdom Hall]%feasible_spec.
  pose proof (λ i j y, assigned_binary name data fam m val i j y Hm Hdom) as Hbin.
  apply formulation_Ok in Hm
    as (obj & c1 & c2 & c3 & c4 & c5 & Hobj & _ & _ & _ & H4 & _ & ->).
  cbn [gp.constrs] in Hall. unfold gp.ObjVal, total_population. cbn [gp.objective].
  apply (coverage_objective_bound val _ _ _ _ obj Hobj); [| | done].
  - intros i j v Hv. destruct (Hbin i j v Hv); lia.
  - intros i ts Hi Hts.
    apply holds_c_single with (i := i), Hall. rewrite !elem_of_app.
    right; right; right; left.
    apply (collect_Ok _ _ _ H4). exists i, [c_single i ts].
    split_and!; [done | | by left]. by rewrite Hts.
Qed.

Lemma objective_at_most_population_witness :
  ∃ m, generate_gurobipy_model example_data = Ok m
       ∧ 0 ≤ gp.ObjVal m (λ v : nat, if decide (v = 0%nat ∨ v = 2%nat) then 1 else 0)
           ≤ total_population example_data.
Proof.
  eexists. split; [vm_compute; reflexivity |].
  apply (objective_at_most_population example_data _ _ (or_introl eq_refl)).
  - intros i r _ Hr.
    destruct (decide (i = "H1")) as [-> | ?]; [by injection Hr as <- |].
    destruct (decide (i = "H2")) as [-> | ?]; [by injection Hr as <- |].
    unfold example_data in Hr. cbn [population] in Hr.
    by rewrite lookup_insert_ne, lookup_singleton_ne in Hr.
  - vm_compute. reflexivity.
Defined.

(** ** The model solve.py solves *)

Lemma main_model_eq {F} (data : Data F) :
  main_model data
  = formulation "TimorLeste_Healthcare" data (family_distance_dense data).
Proof.
  unfold main_model.
  apply (build_common_eq _ data (constr_distance_dense _ _ _)).
  intros m. apply constr_distance_dense_eq.
Qed.

Lemma formulation_rename {F} name name' (data : Data F) fam :
  match formulation name data fam, formulation name' data fam with
  | Ok m, Ok m' =>
      gp.ModelName m = name ∧ gp.ModelName m' = name'
      ∧ gp.vars m = gp.vars m' ∧ gp.objective m = gp.objective m'
      ∧ gp.ModelSense m = gp.ModelSense m' ∧ gp.constrs m = gp.constrs m'
  | Raise e, Raise e' => e = e'
  | _, _ => False
  end.
Proof.
  unfold formulation.
  destruct (coverage_objective _ _ _ _); cbn [mbind result_bind]; [| done].
  destruct (family_existing data); cbn [mbind result_bind]; [| done].
  destruct (family_budget data); cbn [mbind result_bind]; [| done].
  destruct (family_linking data); cbn [mbind result_bind]; [| done].
  destruct (family_single data); cbn [mbind result_bind]; [| done].
  destruct fam; cbn [mbind result_bind]; done.
Qed.

(** X11. The model [main] of solve.py assembles inline is the dense one:
    it raises the same exception as [generate_gurobipy_model] or has the same
    variables, objective, sense and constraints, none of them lazy, and
    differs from it only in the model name, which is the name
    [build_model] uses. *)
Theorem main_model_is_dense {F} (data : Data F) :
  match main_model data, generate_gurobipy_model data with
  | Ok m, Ok dense =>
      gp.ModelName m = "TimorLeste_Healthcare"
      ∧ gp.ModelName dense = "TimorLeste_Inefficient"
      ∧ gp.vars m = gp.vars dense ∧ gp.objective m = gp.objective dense
      ∧ gp.ModelSense m = gp.ModelSense dense ∧ gp.constrs m = gp.constrs dense
      ∧ NumLazy m = 0%nat
  | Raise e, Raise e' => e = e'
  | _, _ => False
  end.
Proof.
  pose proof (formulation_rename "TimorLeste_Healthcare" "TimorLeste_Inefficient"
                data (family_distance_dense data)) as Hren.
  rewrite <- main_model_eq, <- generate_gurobipy_model_eq in Hren.
  destruct (main_model data) as [m|e] eqn:Hm,
           (generate_gurobipy_model data) as [dense|e'] eqn:Hd; try done.
  destruct Hren as (? & ? & ? & ? & ? & ?). split_and!; try done.
  rewrite main_model_eq in Hm.
  destruct (family_distance_dense data) as [cs|e] eqn:Hcs.
  - destruct (formulation_sizes _ data _ m cs
                (length (households data) * length (all_hospitals data)) false Hm)
      as (_ & _ & _ & Hlazy); [done | | |].
    + by apply family_distance_dense_length.
    + intros c (i & j & yij & row & d & _ & _ & _ & _ & _ & ->)
        %(family_distance_dense_Ok _ _ Hcs). done.
    + exact Hlazy.
  - by apply formulation_Ok in Hm as (? & ? & ? & ? & ? & ? & _ & _ & _ & _ & _ & ? & _).
Qed.

(** ** Generated instances *)

Lemma ids_NoDup prefix n : NoDup (ids prefix n).
Proof.
  unfold ids. apply NoDup_fmap_2; [| apply NoDup_seq].
  intros i j Hij. apply (inj (String.app prefix)), (inj pretty) in Hij. lia.
Qed.

Lemma ids_disjoint m k j : j ∈ ids "EJ" m → j ∉ ids "CJ" k.
Proof.
  unfold ids. intros (a & -> & _)%list_elem_of_fmap (b & Hb & _)%list_elem_of_fmap.
  discriminate Hb.
Qed.

Lemma empty_assignment_built {F} (data : Data F) m :
  generate_gurobipy_model data = Ok m ∨ build_model data = Ok m →
  0 ≤ max_new_hospitals data →
  indicators_binary data = true →
  (∀ j, j ∈ existing_hospitals data → j ∉ candidate_hospitals data) →
  gp.feasible m (empty_assignment data) = true
  ∧ gp.ObjVal m (empty_assignment data) = 0.
Proof.
  intros Hm Hp Hbin0 Hdisj.
  pose proof (proj1 (indicators_binary_spec data) Hbin0) as Hbin.
  assert (Hy : ∀ i j yij, assign_vars data !! (i, j) = Some yij →
                          empty_assignment data yij = 0).
  { intros i j yij Hy.
    destruct (empty_assignment_binary data yij) as [? | H1]; [done |].
    apply empty_assignment_one in H1 as (j' & _ & Hx%open_vars_Some).
    apply assign_vars_Some in Hy. lia. }
  assert (Hex : ∀ j xj, j ∈ existing_hospitals data → open_vars data !! j = Some xj →
                        empty_assignment data xj = 1).
  { intros j xj Hj Hx. apply empty_assignment_one. eauto. }
  assert (Hcand : ∀ j xj, j ∈ candidate_hospitals data →
                          open_vars data !! j = Some xj →
                          empty_assignment data xj = 0).
  { intros j xj Hj Hx.
    destruct (empty_assignment_binary data xj) as [? | H1]; [done |].
    apply empty_assignment_one in H1 as (j' & Hj' & Hx').
    rewrite (open_vars_inj data j j' xj Hx Hx') in Hj. by apply Hdisj in Hj'. }
  destruct Hm as [Hm | Hm].
  - rewrite generate_gurobipy_model_eq in Hm.
    pose proof Hm as (_ & _ & _ & _ & _ & cd & _ & _ & _ & _ & _ & Hcd & _)
      %formulation_Ok.
    eapply empty_assignment_satisfies;
      [exact Hm | exact Hcd | | done | apply empty_assignment_binary | done..].
    intros c (i & j & yij & row & d & Hi & Hj & Hyij & Hrow & Hd & ->)
      %(family_distance_dense_Ok _ _ Hcd).
    apply holds_c_distance. rewrite (Hy i j yij Hyij).
    destruct (Hbin i j row d Hi Hj Hrow Hd); lia.
  - rewrite build_model_eq in Hm.
    pose proof Hm as (_ & _ & _ & _ & _ & cl & _ & _ & _ & _ & _ & Hcl & _)
      %formulation_Ok.
    eapply empty_assignment_satisfies;
      [exact Hm | exact Hcl | | done | apply empty_assignment_binary | done..].
    destruct (family_distance_lazy_Ok _ _ Hcl) as [-> _].
    by intros c ?%elem_of_nil.
Qed.

Section GeneratedInstances.
Context `{Lib}.

(** X12. Given that [np.random.randint(low, high)] returns a value in
    [[low, high)], every generated instance has 20,000 households, 15
    existing and 100 candidate sites with pairwise distinct ids, the
    combined list being the existing sites followed by the candidates; the
    population mapping has exactly the households as keys and every
    population lies between 50 and 499. *)
Theorem generated_instance_shape (seed : Z) (w : World) :
  (∀ a b s, a < b → a ≤ (np_random_randint a b s).1 < b) →
  ∃ d w', generate_data seed w = Ok (d, w')
    ∧ Z.of_nat (length (households d)) = 20000
    ∧ length (existing_hospitals d) = 15%nat
    ∧ length (candidate_hospitals d) = 100%nat
    ∧ all_hospitals d = existing_hospitals d ++ candidate_hospitals d
    ∧ NoDup (households d) ∧ NoDup (all_hospitals d)
    ∧ (∀ h, h ∈ households d ↔ is_Some (population d !! h))
    ∧ (∀ h r, population d !! h = Some r → 50 ≤ r ≤ 499).
Proof.
  intros Hrand. unfold generate_data.
  destruct (generate_data_sized_spec (Z.to_nat 20000) 15 100 seed)
    as (d & w' & Hgen & _).
  destruct (generate_data_sized_inv _ _ _ _ w d w' (Hgen w))
    as (Hhs & Hex & Hca & Hall & Hpop & Hkeys & _).
  exists d, w'. split_and!.
  - apply Hgen.
  - rewrite Hhs, length_ids. lia.
  - by rewrite Hex, length_ids.
  - by rewrite Hca, length_ids.
  - by rewrite Hall, Hex, Hca.
  - rewrite Hhs. apply ids_NoDup.
  - rewrite Hall. apply NoDup_app. split_and!; [apply ids_NoDup | | apply ids_NoDup].
    intros j. apply ids_disjoint.
  - intros h. split.
    + intros [s0 Hs]%Hpop. eauto.
    + intros [r Hr]. by eapply Hkeys.
  - intros h r Hr. destruct (Hpop h (Hkeys h r Hr)) as [s0 Hs].
    assert (r = (np_random_randint 50 500 s0).1) as -> by congruence.
    pose proof (Hrand 50 500 s0 ltac:(lia)). lia.
Qed.

(** X13. Given that [random.randint(a, b)] returns a value in [[a, b]],
    the dense model of every generated instance, and the sparse model
    whenever [build_model] returns one, is feasible: keeping the existing
    hospitals, opening no candidate and serving nobody satisfies every
    constraint, with objective 0.  A solve of generated data therefore never
    ends infeasible. *)
Theorem generated_instance_feasible (seed : Z) (w : World) :
  (∀ a b s, a ≤ b → a ≤ (random_randint a b s).1 ≤ b) →
  ∃ d w' dense,
    generate_data seed w = Ok (d, w')
    ∧ generate_gurobipy_model d = Ok dense
    ∧ gp.feasible dense (empty_assignment d) = true
    ∧ gp.ObjVal dense (empty_assignment d) = 0
    ∧ ∀ sparse, build_model d = Ok sparse →
        gp.feasible sparse (empty_assignment d) = true
        ∧ gp.ObjVal sparse (empty_assignment d) = 0.
Proof.
  intros Hrand. unfold generate_data.
  destruct (generate_data_sized_spec (Z.to_nat 20000) 15 100 seed)
    as (d & w' & Hgen & _ & _ & Hex & Hca & _ & Hp & _).
  destruct (generated_consistent _ _ _ _ w d w' (Hgen w)) as [Hcons Hbin].
  destruct (generated_dense_builds _ _ _ _ w d w' (Hgen w)) as [dense Hd].
  assert (0 ≤ max_new_hospitals d) as Hp0.
  { pose proof (Hrand 5 100
      (random_uniform (of_int 8) (of_int 15) (random_seed seed)).2 ltac:(lia)) as Hr.
    change (Z.of_nat 100) with 100 in Hp. rewrite Hp. lia. }
  assert (∀ j, j ∈ existing_hospitals d → j ∉ candidate_hospitals d) as Hdisj.
  { intros j. rewrite Hex, Hca. apply ids_disjoint. }
  destruct (empty_assignment_built d dense (or_introl Hd) Hp0 Hbin Hdisj) as [? ?].
  exists d, w', dense. split_and!; [apply Hgen | done.. |].
  intros sparse Hs. exact (empty_assignment_built d sparse (or_intror Hs) Hp0 Hbin Hdisj).
Qed.

(** X14. End to end: in every feasible solution of the dense model built
    from a generated instance, and of the sparse model whenever
    [build_model] returns one, a household is served only by a site whose
    stored travel distance is [<=] the stored distance limit. *)
Theorem generated_assignment_within_limit (seed : Z) (w : World) :
  ∃ d w' dense,
    generate_data seed w = Ok (d, w')
    ∧ generate_gurobipy_model d = Ok dense
    ∧ ∀ m val i j yij,
        generate_gurobipy_model d = Ok m ∨ build_model d = Ok m →
        gp.feasible m val = true →
        assign_vars d !! (i, j) = Some yij → val yij = 1 →
        ∃ drow dist, travel_distances d !! i = Some drow ∧ drow !! j = Some dist
                     ∧ fle dist (max_travel_distance d) = true.
Proof.
  unfold generate_data.
  destruct (generate_data_sized_spec (Z.to_nat 20000) 15 100 seed)
    as (d & w' & Hgen & _ & _ & _ & _ & _ & _ & Hcomplete & _ & Hind & _).
  destruct (generated_consistent _ _ _ _ w d w' (Hgen w)) as [Hcons Hbin].
  destruct (generated_dense_builds _ _ _ _ w d w' (Hgen w)) as [dense Hd].
  exists d, w', dense. split_and!; [apply Hgen | done |].
  intros m val i j yij Hbuilt Hfeas Hy H1.
  destruct (served_pair_indicator d m val i j yij Hbuilt Hbin Hfeas Hy H1)
    as (row & Hrow & Hone).
  destruct (derive_indicators_spec _ _ _ (max_travel_distance d) Hcomplete)
    as (ind & Hind' & Hpairs & _).
  assert (ind = distance_indicators d) as -> by congruence.
  pose proof Hy as (Hi & Hj & _)%assign_vars_Some.
  destruct (Hpairs i j Hi Hj) as (drow & dist & row' & Hdrow & Hdist & Hrow' & Hflag).
  assert (row' = row) as -> by congruence.
  exists drow, dist. split_and!; [done.. |].
  rewrite Hone in Hflag. by destruct (fle dist (max_travel_distance d)).
Qed.

End GeneratedInstances.

Lemma lcg_np_randint_range (a b s : Z) :
  a < b → a ≤ (np_random_randint (Lib := lcg_lib) a b s).1 < b.
Proof.
  intros Hab.
  change (a ≤ a + ((1103515245 * s + 12345) `mod` 2147483648) `mod` (b - a) < b).
  pose proof (Z.mod_pos_bound ((1103515245 * s + 12345) `mod` 2147483648) (b - a)
                ltac:(lia)).
  lia.
Qed.

Lemma generated_instance_shape_witness :
  ∃ d w', generate_data (H := lcg_lib) 42 lcg_world = Ok (d, w')
    ∧ Z.of_nat (length (households d)) = 20000
    ∧ length (existing_hospitals d) = 15%nat
    ∧ length (candidate_hospitals d) = 100%nat
    ∧ all_hospitals d = existing_hospitals d ++ candidate_hospitals d
    ∧ NoDup (households d) ∧ NoDup (all_hospitals d)
    ∧ (∀ h, h ∈ households d ↔ is_Some (population d !! h))
    ∧ (∀ h r, population d !! h = Some r → 50 ≤ r ≤ 499).
Proof.
  exact (generated_instance_shape (H := lcg_lib) 42 lcg_world lcg_np_randint_range).
Defined.

Lemma generated_instance_feasible_witness :
  ∃ d w' dense,
    generate_data (H := lcg_lib) 42 lcg_world = Ok (d, w')
    ∧ generate_gurobipy_model d = Ok dense
    ∧ gp.feasible dense (empty_assignment d) = true
    ∧ gp.ObjVal dense (empty_assignment d) = 0
    ∧ ∀ sparse, build_model d = Ok sparse →
        gp.feasible sparse (empty_assignment d) = true
        ∧ gp.ObjVal sparse (empty_assignment d) = 0.
Proof.
  exact (generated_instance_feasible (H := lcg_lib) 42 lcg_world lcg_randint_range).
Defined.
